(** * Learning-In-Public-Automation: the post shaper and the two [main]s

    A shallow embedding of [src/script.py] (the single-platform variant),
    [src/Tweet/X Automation/script.py] (the two-platform variant) and
    [src/Tweet/X Automation/tweet.py] (the first paraphraser).

    Python's [str] is a sequence of Unicode code points; it is modelled as
    [list N], so that [len] is [length], [s[:n]] is [take n s] and [+] is
    [++].  Names of environment variables, paths and log messages, which the
    program only ever writes as literals, are Rocq [string]s. *)

From Stdlib Require Import NArith ZArith Lia Ascii String List DecimalString.
From stdpp Require Import base option list strings gmap.

Local Open Scope N_scope.
Local Open Scope nat_scope.
Local Open Scope list_scope.

(** ** Python strings *)

Module PyStr.

Abbreviation char := N (only parsing).
Abbreviation str := (list N) (only parsing).

(** Decoding of a source literal (UTF-8 bytes) into code points. *)
Fixpoint utf8_decode (pending : nat) (acc : N) (bs : list N) : str :=
  match bs with
  | [] => []
  | b :: bs' =>
    match pending with
    | O =>
      if (b <? 128)%N then b :: utf8_decode 0 0%N bs'
      else if (b <? 224)%N then utf8_decode 1 (b - 192)%N bs'
      else if (b <? 240)%N then utf8_decode 2 (b - 224)%N bs'
      else utf8_decode 3 (b - 240)%N bs'
    | S p =>
      let acc' := (acc * 64 + (b - 128))%N in
      match p with
      | O => acc' :: utf8_decode 0 0%N bs'
      | S _ => utf8_decode p acc' bs'
      end
    end
  end.

Fixpoint bytes_of (s : string) : list N :=
  match s with
  | EmptyString => []
  | String a s' => N_of_ascii a :: bytes_of s'
  end.

Definition lit (s : string) : str := utf8_decode 0 0%N (bytes_of s).

Definition nl : char := 10%N.
Definition space : char := 32%N.
Definition dquote : char := 34%N.

(** ["…"], U+2026 HORIZONTAL ELLIPSIS. *)
Definition ellipsis : str := lit "…".

(** ["\n\n\n"] and ["\n\n"]. *)
Definition nl3 : str := [nl; nl; nl].
Definition nl2 : str := [nl; nl].

(** [str.isspace] on one code point, as CPython's [_PyUnicode_IsWhitespace]. *)
Definition is_space (c : char) : bool :=
  ((9 <=? c) && (c <=? 13) || (28 <=? c) && (c <=? 32)
   || (c =? 133) || (c =? 160) || (c =? 5760)
   || (8192 <=? c) && (c <=? 8202)
   || (c =? 8232) || (c =? 8233) || (c =? 8239) || (c =? 8287)
   || (c =? 12288))%N.

Fixpoint lstrip (s : str) : str :=
  match s with
  | [] => []
  | c :: s' => if is_space c then lstrip s' else s
  end.

(** [rstrip] keeps a code point when it is not white space or when something
    that is kept follows it. *)
Fixpoint rstrip (s : str) : str :=
  match s with
  | [] => []
  | c :: s' =>
    match rstrip s' with
    | [] => if is_space c then [] else [c]
    | r => c :: r
    end
  end.

(** [s.strip()] *)
Definition strip (s : str) : str := rstrip (lstrip s).

(** [s.lower()] on the code points whose lower case is an ASCII letter:
    [A]..[Z] and U+212A KELVIN SIGN.  Every other code point is left as it
    is; Python maps some of them to other non-ASCII text, which makes no
    difference to the comparisons with ASCII literals this program makes. *)
Definition lower_char (c : char) : char :=
  if ((65 <=? c) && (c <=? 90))%N then (c + 32)%N
  else if (c =? 8490)%N then 107%N
  else c.

Definition lower (s : str) : str := map lower_char s.

(** [a == b] *)
Fixpoint eqb (a b : str) : bool :=
  match a, b with
  | [], [] => true
  | x :: a', y :: b' => (x =? y)%N && eqb a' b'
  | _, _ => false
  end.

(** [not s]: the empty string is the only falsy string. *)
Definition is_empty (s : str) : bool :=
  match s with [] => true | _ :: _ => false end.

(** [s.startswith(p)] *)
Fixpoint is_prefix (p s : str) : bool :=
  match p, s with
  | [], _ => true
  | _ :: _, [] => false
  | x :: p', y :: s' => (x =? y)%N && is_prefix p' s'
  end.

(** [sub in s] *)
Fixpoint contains (sub s : str) : bool :=
  is_prefix sub s ||
  match s with
  | [] => false
  | _ :: s' => contains sub s'
  end.

(** [s.replace(old, new)]: occurrences of [old] are found from the left
    and do not overlap.  [skip] counts the code points of a matched
    occurrence that are still to be passed over. *)
Fixpoint replace_from (old new : str) (skip : nat) (s : str) : str :=
  match s with
  | [] => if is_empty old then new else []
  | c :: s' =>
    match skip with
    | S k => replace_from old new k s'
    | O =>
      if is_prefix old s
      then new ++ (if is_empty old then c :: replace_from old new 0 s'
                   else replace_from old new (length old - 1) s')
      else c :: replace_from old new 0 s'
    end
  end.

Definition replace (old new s : str) : str := replace_from old new 0 s.

(** [s.replace("\n", " ")] and the like are instances of [replace]. *)



(** A surrogate, U+D800 to U+DFFF: a code point a [str] may hold (a JSON
    escape gives one) and UTF-8 cannot encode. *)
Definition is_surrogate (c : char) : bool := ((55296 <=? c) && (c <=? 57343))%N.

(** [s.encode("utf-8")] raises nothing: [s] holds no surrogate. *)
Definition encodable (s : str) : bool := forallb (fun c => negb (is_surrogate c)) s.

(** The number of surrogates [s] begins with. *)
Fixpoint leading_surrogates (s : str) : nat :=
  match s with
  | [] => 0
  | c :: s' => if is_surrogate c then S (leading_surrogates s') else 0
  end.

(** Where [s.encode("utf-8")] fails: the position of the first surrogate
    of [s], counted from [pos], the surrogate, and how many surrogates
    follow it at once. *)
Fixpoint first_surrogates (pos : nat) (s : str) : option (nat * char * nat) :=
  match s with
  | [] => None
  | c :: s' =>
    if is_surrogate c then Some (pos, c, leading_surrogates s')
    else first_surrogates (S pos) s'
  end.

(** [str(n)] and the four digits of [c] in base 16, as ['%04x' % c]. *)
Definition decimal (n : nat) : string := NilEmpty.string_of_uint (Nat.to_uint n).

Definition hex_digit (d : N) : string :=
  String.substring (N.to_nat d) 1 "0123456789abcdef".

Definition hex4 (c : char) : string :=
  (hex_digit (c / 4096 mod 16) +:+ hex_digit (c / 256 mod 16)
   +:+ hex_digit (c / 16 mod 16) +:+ hex_digit (c mod 16))%N.

End PyStr.

Import PyStr.

(** ** The post shaper *)

Module Shaper.

Definition MAX_TWEET_LENGTH : nat := 280.
Definition MAX_LINKEDIN_LENGTH : nat := 3000.
Definition LINKEDIN_SEE_MORE_LIMIT : nat := 200.

(** [while "\n\n\n" in tweet: tweet = tweet.replace("\n\n\n", "\n\n")],
    run for at most [fuel] evaluations of the loop condition; [None] when
    the fuel is used up before the condition turns false. *)
Fixpoint collapse_loop (fuel : nat) (tweet : str) : option str :=
  match fuel with
  | O => None
  | S fuel' =>
    if contains nl3 tweet
    then collapse_loop fuel' (replace nl3 nl2 tweet)
    else Some tweet
  end.

(** The same loop as a big-step relation: [while_collapse s r] when the
    loop started on [s] exits with [r]. *)
Inductive while_collapse : str -> str -> Prop :=
| while_exit (s : str) :
    contains nl3 s = false -> while_collapse s s
| while_iter (s r : str) :
    contains nl3 s = true ->
    while_collapse (replace nl3 nl2 s) r ->
    while_collapse s r.

(** The loop with the fuel that always suffices (see [collapse_loop_enough]). *)
Definition collapse (tweet : str) : str :=
  match collapse_loop (S (length tweet)) tweet with
  | Some r => r
  | None => tweet
  end.

(** [if len(tweet) > limit: tweet = tweet[: limit - 1] + "…"] *)
Definition hard_limit (limit : nat) (tweet : str) : str :=
  if limit <? length tweet then take (limit - 1) tweet ++ ellipsis else tweet.

(** Lines 66-73 of [paraphrase_for_tweet] (both variants): the loop, then
    the "hard safety net". *)
Definition shape_tweet (tweet : str) : str :=
  hard_limit MAX_TWEET_LENGTH (collapse tweet).

(** Lines 111-114 of [paraphrase_for_linkedin]. *)
Definition shape_linkedin (post : str) : str :=
  hard_limit MAX_LINKEDIN_LENGTH post.

(** Lines 41-47 of [paraphrase_text] in [tweet.py], after the [strip]:
    [.replace("\n", " ")], then [tweet[:277] + "..."] past 280. *)
Definition shape_text (tweet : str) : str :=
  let tweet := replace [nl] [space] tweet in
  if 280 <? length tweet then take 277 tweet ++ lit "..." else tweet.

(** [truncate_tweet] (the same in both variants, the warning apart). *)
Definition truncate_tweet (text : str) : str :=
  if is_empty text then []
  else if length text <=? MAX_TWEET_LENGTH then text
  else take (MAX_TWEET_LENGTH - 1) text ++ ellipsis.

(** *** The specification's blank-line rule

    Written from the specification's words, not from the code: "collapse
    any run of three or more consecutive newline characters down to exactly
    two".  The string is cut into its maximal runs of equal code points,
    each newline run of length three or more is replaced by a run of length
    two, and the runs are put together again. *)
Fixpoint runs (s : str) : list (char * nat) :=
  match s with
  | [] => []
  | c :: s' =>
    match runs s' with
    | (d, n) :: r => if (c =? d)%N then (d, S n) :: r else (c, 1) :: (d, n) :: r
    | [] => [(c, 1)]
    end
  end.

Definition cap_run (r : char * nat) : char * nat :=
  if (r.1 =? nl)%N && (3 <=? r.2) then (r.1, 2) else r.

Definition unruns (rs : list (char * nat)) : str :=
  flat_map (fun r => replicate r.2 r.1) rs.

Definition normalize_blank_lines (s : str) : str :=
  unruns (map cap_run (runs s)).

(** A one-pass reading of the same rule, used in the proofs: [k] newlines
    come just before [s]; a newline is kept while fewer than two precede. *)
Fixpoint cap_newlines (k : nat) (s : str) : str :=
  match s with
  | [] => []
  | c :: s' =>
    if (c =? nl)%N
    then (if k <? 2 then c :: cap_newlines (S k) s' else cap_newlines (S k) s')
    else c :: cap_newlines 0 s'
  end.

End Shaper.

Import Shaper.

(** ** Exceptions, the outside world and the effect monad *)

Module Py.

(** The exception classes the program raises or names in an [except]
    clause.  [EnvironmentError] is Python 3's alias of [OSError], of which
    [FileNotFoundError] is a subclass.  [OtherException] stands for any other
    subclass of [Exception] an external call may raise, [KeyboardInterrupt]
    for the [BaseException]s that [except Exception] lets through.
    [UnicodeEncodeError] is what writing a surrogate to a UTF-8 file
    raises. *)
Inductive exn : Type :=
| EnvironmentError (msg : string)
| FileNotFoundError (msg : string)
| RuntimeError (msg : string)
| AttributeError (msg : string)
| UnicodeEncodeError (msg : string)
| TweepyException (msg : string)
| OtherException (msg : string)
| KeyboardInterrupt.

Definition is_Exception (e : exn) : bool :=
  match e with KeyboardInterrupt => false | _ => true end.

Definition is_EnvironmentError (e : exn) : bool :=
  match e with EnvironmentError _ | FileNotFoundError _ => true | _ => false end.

Definition is_TweepyException (e : exn) : bool :=
  match e with TweepyException _ => true | _ => false end.

(** [str(e)] *)
Definition exn_msg (e : exn) : string :=
  match e with
  | EnvironmentError m | FileNotFoundError m | RuntimeError m
  | AttributeError m | UnicodeEncodeError m | TweepyException m
  | OtherException m => m
  | KeyboardInterrupt => ""
  end.

(** The exception of [line.encode("utf-8")], if it raises one: the codec
    names the first surrogate, or the positions of the first run of them. *)
Definition utf8_encode_error (line : str) : option exn :=
  match first_surrogates 0 line with
  | None => None
  | Some (pos, c, more) =>
    Some (UnicodeEncodeError
            ("'utf-8' codec can't encode "
             +:+ match more with
                 | O => "character '\u" +:+ hex4 c +:+ "' in position " +:+ decimal pos
                 | S _ => "characters in position " +:+ decimal pos
                          +:+ "-" +:+ decimal (pos + more)
                 end
             +:+ ": surrogates not allowed"))
  end.

Inductive outcome (A : Type) : Type :=
| Return (a : A)
| Raise (e : exn).
Arguments Return {A} a.
Arguments Raise {A} e.

Inductive loglevel : Type := INFO | WARNING | ERROR.

(** What a run does to the outside, in the order it does it.  A log record
    keeps its level and its message (the format string; the arguments of a
    [%s] are not kept). *)
Inductive event : Type :=
| Log (level : loglevel) (msg : string)
| Print (s : str)
| Input (prompt : str)
| GenerateContent (prompt : str)
| CreateTweet (text : str)
| FileAppend (path : string) (contents : str).

(** [client.models.generate_content(...)]: it raises, or gives a response
    whose [.text] is a string or [None] (a response without a text part). *)
Inductive gen_result : Type :=
| GenRaise (e : exn)
| GenResponse (text : option str).

(** [client.create_tweet(text=...)]: it raises, or gives a response from
    which [response.data.get("id") if response and response.data else None]
    reads [tweet_id]. *)
Inductive post_result : Type :=
| PostRaise (e : exn)
| PostResponse (tweet_id : option str).

(** [input(...)] *)
Inductive input_result : Type :=
| InputRaise (e : exn)
| InputLine (s : str).

(** Everything a run is given from outside.  [environ] is the environment
    after [load_dotenv()]; [arg_yes] and [arg_output] are what
    [parser.parse_args()] returns; [read_error] and [append_error] say
    which [open] fails; [write_error] says for which file that was opened
    for appending the writing fails (a full disk, say), with how many code
    points of the text having reached the file; the constructors
    [genai.Client] and, unless [client_init] says otherwise, [tweepy.Client]
    are taken not to raise. *)
Record World : Type := {
  environ : gmap string (list N);
  arg_yes : bool;
  arg_output : string;
  read_error : string -> option exn;
  append_error : string -> option exn;
  write_error : string -> option (nat * exn);
  generate_content : str -> gen_result;
  client_init : option exn;
  create_tweet : str -> post_result;
  stdin : input_result;
  utcnow_isoformat : nat -> str
}.

(** The part of the outside a run changes: the files, how often the clock
    was read, and the events so far (oldest first). *)
Record state : Type := {
  fs : gmap string (list N);
  ticks : nat;
  trace : list event
}.

Definition M (A : Type) : Type := state -> outcome A * state.

Definition ret {A} (a : A) : M A := fun st => (Return a, st).

Definition bind {A B} (m : M A) (k : A -> M B) : M B :=
  fun st =>
    match m st with
    | (Return a, st') => k a st'
    | (Raise e, st') => (Raise e, st')
    end.

Definition raise {A} (e : exn) : M A := fun st => (Raise e, st).

(** [try: body / except ...: handler]: [handlers e] is the first clause
    that matches [e], if any. *)
Definition try_except {A} (body : M A) (handlers : exn -> option (M A)) : M A :=
  fun st =>
    match body st with
    | (Return a, st') => (Return a, st')
    | (Raise e, st') =>
      match handlers e with
      | Some h => h st'
      | None => (Raise e, st')
      end
    end.

Definition emit (e : event) : M unit :=
  fun st => (Return tt, {| fs := fs st; ticks := ticks st; trace := trace st ++ [e] |}).

Definition get_fs : M (gmap string (list N)) := fun st => (Return (fs st), st).

Definition logging (level : loglevel) (msg : string) : M unit := emit (Log level msg).

(** [print(s)]: the standard output is taken to accept every string. *)
Definition print (s : str) : M unit := emit (Print s).

End Py.

Import Py.

Declare Scope py_scope.
Delimit Scope py_scope with py.
Notation "x <- m ;; k" := (bind m (fun x => k))
  (at level 100, m at next level, right associativity) : py_scope.
Notation "m ;;; k" := (bind m (fun _ => k))
  (at level 100, right associativity) : py_scope.
Local Open Scope py_scope.

(** ** What both scripts share, word for word *)

Module Common.

Section WithWorld.
Context (w : World).

(** [os.getenv(name)] *)
Definition getenv (name : string) : option str := environ w !! name.

(** [_get_env_var]: [not val] holds for [None] and for the empty string. *)
Definition _get_env_var (name : string) : M str :=
  match getenv name with
  | Some (c :: v) => ret (c :: v)
  | _ => raise (EnvironmentError ("Missing required environment variable: " +:+ name))
  end.

(** [read_text_from_file] (named [read_input_from_file] in [tweet.py]) *)
Definition read_text_from_file (file_path : string) : M str :=
  files <- get_fs ;;
  match files !! file_path with
  | None => raise (FileNotFoundError (file_path +:+ " not found"))
  | Some contents =>
    match read_error w file_path with
    | Some e => raise e
    | None => ret (strip contents)
    end
  end.

(** [client.models.generate_content(model=..., contents=prompt)] *)
Definition models_generate_content (prompt : str) : M (option str) :=
  emit (GenerateContent prompt) ;;;
  match generate_content w prompt with
  | GenRaise e => raise e
  | GenResponse text => ret text
  end.

(** [response.text.strip()]: [None] has no [strip]. *)
Definition response_text_strip (text : option str) : M str :=
  match text with
  | Some t => ret (strip t)
  | None => raise (AttributeError "'NoneType' object has no attribute 'strip'")
  end.

(** [tweepy.Client(consumer_key=_get_env_var("X_API_KEY"), ...)]: the four
    arguments are evaluated in order, then the constructor runs. *)
Definition tweepy_Client : M unit :=
  _ <- _get_env_var "X_API_KEY" ;;
  _ <- _get_env_var "X_API_SECRET" ;;
  _ <- _get_env_var "X_ACCESS_TOKEN" ;;
  _ <- _get_env_var "X_ACCESS_SECRET" ;;
  match client_init w with
  | Some e => raise e
  | None => ret tt
  end.

(** [client.create_tweet(text=tweet)] *)
Definition client_create_tweet (tweet : str) : M (option str) :=
  emit (CreateTweet tweet) ;;;
  match create_tweet w tweet with
  | PostRaise e => raise e
  | PostResponse tweet_id => ret tweet_id
  end.

(** [os.getenv("DRY_RUN", "false").lower() == "true"] *)
Definition dry_run_flag : bool :=
  PyStr.eqb (lower (default (lit "false") (getenv "DRY_RUN"))) (lit "true").

(** The first handler of [main]'s [try] around [tweepy.Client]: it ends
    [main] with 2 or 3. *)
Definition client_handlers (e : exn) : option (M (Z + unit)) :=
  if is_EnvironmentError e then
    Some (logging ERROR (exn_msg e) ;;; ret (inl 2%Z))
  else if is_Exception e then
    Some (logging ERROR "Failed to initialize X client" ;;; ret (inl 3%Z))
  else None.

End WithWorld.

(** A text made of lines, each ended by a newline. *)
Definition unlines (ls : list str) : str := flat_map (fun l => l ++ [nl]) ls.

End Common.

Import Common.

(** ** [src/script.py]: the single-platform variant *)

Module Single.

Definition prompt (text : str) : str :=
  [nl] ++ unlines [
    lit "Paraphrase the text below into a single tweet for learning in public.";
    [];
    lit "Rules:";
    lit "- Keep " ++ [dquote] ++ lit "Day X" ++ [dquote] ++ lit " or "
      ++ [dquote] ++ lit "Day <number>" ++ [dquote] ++ lit " exactly as written if present.";
    lit "- Structure the tweet into 2–3 short lines for readability.";
    lit "- Add a blank line between sections (use line breaks).";
    lit "- Add 1–2 relevant emojis naturally.";
    lit "- Tone should be clear, motivating, and slightly cool.";
    lit "- Not too formal, not too casual.";
    lit "- Use simple, easy-to-understand English.";
    lit "- Avoid fancy or complex words.";
    lit "- Include 1–3 relevant hashtags on the last line.";
    lit "- Return ONLY one version.";
    lit "- No explanations, no options, no formatting.";
    lit "- STRICTLY limit the output to a maximum of 280 characters.";
    [];
    lit "Text:";
    text].

Section WithWorld.
Context (w : World).

Definition paraphrase_for_tweet (text : str) : M str :=
  if is_empty text then ret []
  else
    api_key <- _get_env_var w "GEMINI_API_KEY" ;;
    r <- try_except
           (response <- models_generate_content w (prompt text) ;; ret (Some response))
           (fun e => if is_Exception e
                     then Some (logging ERROR "Gemini API call failed" ;;; ret None)
                     else None) ;;
    match r with
    | None => ret []
    | Some response =>
      tweet <- response_text_strip response ;;
      ret (shape_tweet tweet)
    end.

Definition generate_learning_update : M str :=
  r <- try_except
         (raw_text <- read_text_from_file w "text.txt" ;; ret (Some raw_text))
         (fun e => if is_Exception e
                   then Some (logging ERROR "Failed to read input text: %s" ;;; ret None)
                   else None) ;;
  match r with
  | None => ret []
  | Some raw_text =>
    if is_empty raw_text then
      logging ERROR "text.txt is empty." ;;; ret []
    else
      logging INFO "Paraphrasing learning update from text.txt" ;;;
      paraphrase_for_tweet raw_text
  end.

Definition truncate_tweet (text : str) : M str :=
  if is_empty text then ret []
  else if length text <=? MAX_TWEET_LENGTH then ret text
  else
    logging WARNING "Tweet exceeded %s chars. Truncating automatically." ;;;
    ret (take (MAX_TWEET_LENGTH - 1) text ++ ellipsis).

Definition main : M Z :=
  let dry_run := dry_run_flag w in
  init <- try_except (client <- tweepy_Client w ;; ret (inr client)) (client_handlers) ;;
  match init with
  | inl code => ret code
  | inr client =>
    tweet <- generate_learning_update ;;
    tweet <- truncate_tweet tweet ;;
    if is_empty tweet then
      logging ERROR "Generated tweet is empty." ;;; ret 4%Z
    else if dry_run then
      logging INFO "DRY RUN ENABLED — Tweet not posted" ;;;
      print ([nl] ++ lit "--- TWEET PREVIEW ---" ++ [nl]) ;;;
      print tweet ;;;
      print ([nl] ++ lit "--------------------" ++ [nl]) ;;;
      ret 0%Z
    else
      posted <- try_except
                  (response <- client_create_tweet w tweet ;; ret (inr response))
                  (fun e =>
                     if is_TweepyException e then
                       Some (logging ERROR "X API error while posting tweet" ;;; ret (inl 5%Z))
                     else if is_Exception e then
                       Some (logging ERROR "Unexpected error while posting tweet" ;;; ret (inl 6%Z))
                     else None) ;;
      match posted with
      | inl code => ret code
      | inr tweet_id =>
        logging INFO "Tweet posted successfully" ;;;
        match tweet_id with
        | Some (_ :: _) => logging INFO "Tweet ID: %s"
        | _ => ret tt
        end ;;;
        ret 0%Z
      end
  end.

End WithWorld.

End Single.

(** ** [src/Tweet/X Automation/script.py]: the two-platform variant *)

Module Dual.

Definition tweet_prompt (text : str) : str :=
  [nl] ++ unlines [
    lit "Paraphrase the text below into a single tweet for learning in public.";
    [];
    lit "Rules:";
    lit "- Keep " ++ [dquote] ++ lit "Day X" ++ [dquote] ++ lit " or "
      ++ [dquote] ++ lit "Day <number>" ++ [dquote] ++ lit " exactly as written if present.";
    lit "- Structure the tweet into 2–3 short lines.";
    lit "- Add a blank line between sections.";
    lit "- Add 1–2 relevant emojis.";
    lit "- Tone should be clear, motivating, and slightly cool.";
    lit "- Simple English only.";
    lit "- Include 1–3 hashtags on the last line.";
    lit "- STRICT limit: 280 characters.";
    lit "- Return ONLY the tweet.";
    [];
    lit "Text:";
    text].

Definition linkedin_prompt (text : str) : str :=
  [nl] ++ unlines [
    lit "Rewrite the text below as a LinkedIn learning-in-public post.";
    [];
    lit "Rules:";
    lit "- First ~200 characters must hook the reader before "
      ++ [dquote] ++ lit "See more" ++ [dquote] ++ lit ".";
    lit "- Use short paragraphs and spacing.";
    lit "- Bold important points using **bold**.";
    lit "- Professional, authentic tone.";
    lit "- Simple English.";
    lit "- 0–2 emojis max.";
    lit "- Add 3–5 relevant hashtags at the end.";
    lit "- Max length: 3000 characters.";
    lit "- Return ONLY the post content.";
    [];
    lit "Text:";
    text].

Section WithWorld.
Context (w : World).

Definition paraphrase_for_tweet (text : str) : M str :=
  if is_empty text then ret []
  else
    api_key <- _get_env_var w "GEMINI_API_KEY" ;;
    r <- try_except
           (response <- models_generate_content w (tweet_prompt text) ;; ret (Some response))
           (fun e => if is_Exception e
                     then Some (logging ERROR "Gemini API call failed for Twitter" ;;; ret None)
                     else None) ;;
    match r with
    | None => ret []
    | Some response =>
      tweet <- response_text_strip response ;;
      ret (shape_tweet tweet)
    end.

Definition paraphrase_for_linkedin (text : str) : M str :=
  if is_empty text then ret []
  else
    api_key <- _get_env_var w "GEMINI_API_KEY" ;;
    r <- try_except
           (response <- models_generate_content w (linkedin_prompt text) ;; ret (Some response))
           (fun e => if is_Exception e
                     then Some (logging ERROR "Gemini API call failed for LinkedIn" ;;; ret None)
                     else None) ;;
    match r with
    | None => ret []
    | Some response =>
      post <- response_text_strip response ;;
      ret (shape_linkedin post)
    end.

Definition generate_learning_update : M (str * str) :=
  r <- try_except
         (raw_text <- read_text_from_file w "input.txt" ;; ret (Some raw_text))
         (fun e => if is_Exception e
                   then Some (logging ERROR "Failed to read input text: %s" ;;; ret None)
                   else None) ;;
  match r with
  | None => ret ([], [])
  | Some raw_text =>
    if is_empty raw_text then
      logging ERROR "input.txt is empty." ;;; ret ([], [])
    else
      logging INFO "Generating learning updates" ;;;
      tweet <- paraphrase_for_tweet raw_text ;;
      linkedin_post <- paraphrase_for_linkedin raw_text ;;
      ret (tweet, linkedin_post)
  end.

Definition truncate_tweet (text : str) : str := Shaper.truncate_tweet text.

(** [f.writelines(contents)] on a file with [encoding="utf-8"]: the text
    of the lines up to the first that cannot be encoded, and the exception
    of that line, if there is one. *)
Fixpoint writelines (contents : list str) : str * option exn :=
  match contents with
  | [] => ([], None)
  | line :: rest =>
    match utf8_encode_error line with
    | Some e => ([], Some e)
    | None => let (text, failed) := writelines rest in (line ++ text, failed)
    end
  end.

(** [datetime.utcnow().isoformat()] *)
Definition utcnow : M str :=
  fun st => (Return (utcnow_isoformat w (ticks st)),
             {| fs := fs st; ticks := S (ticks st); trace := trace st |}).

(** What [text] reaches the file at [path] by the time it is closed; the
    file is created when it does not exist. *)
Definition write_to (path : string) (text : str) : M unit :=
  fun st =>
    (Return tt,
     {| fs := <[path := default [] (fs st !! path) ++ text]> (fs st);
        ticks := ticks st;
        trace := trace st ++ [FileAppend path text] |}).

(** [with open(path, "a", encoding="utf-8") as f: f.writelines(contents)].
    When [open] raises, no file is touched.  After it, the lines are written
    one by one; a line that cannot be encoded ends the writing with a
    [UnicodeEncodeError], the lines before it staying in the file; a
    failing write leaves the beginning of the text in the file. *)
Definition append_lines (path : string) (contents : list str) : M unit :=
  match append_error w path with
  | Some e => raise e
  | None =>
    let (text, failed) := writelines contents in
    match write_error w path with
    | Some (n, e) => write_to path (take n text) ;;; raise e
    | None =>
      write_to path text ;;;
      match failed with
      | Some e => raise e
      | None => ret tt
      end
    end
  end.

(** The list [contents] that [save_output] builds. *)
Definition record_lines (now tweet linkedin_post : str) (note : option str) : list str :=
  [lit "===== Generated on " ++ now ++ lit "Z =====" ++ [nl]]
  ++ match note with
     | Some (c :: n) => [lit "NOTE: " ++ (c :: n) ++ [nl]]
     | _ => []
     end
  ++ [lit "--- X / TWEET ---" ++ [nl];
      rstrip tweet ++ [nl; nl];
      lit "--- LINKEDIN POST ---" ++ [nl];
      rstrip linkedin_post ++ [nl];
      [nl]].

Definition save_output (tweet linkedin_post : str) (path : string) (note : option str) : M unit :=
  now <- utcnow ;;
  let contents := record_lines now tweet linkedin_post note in
  try_except
    (append_lines path contents ;;; logging INFO "Saved outputs to %s")
    (fun e => if is_Exception e
              then Some (logging ERROR "Failed to write outputs to %s")
              else None).

(** [input("Post the tweet now? (y/N): ")] *)
Definition input (prompt : str) : M str :=
  emit (Input prompt) ;;;
  match stdin w with
  | InputRaise e => raise e
  | InputLine s => ret s
  end.

Definition main : M Z :=
  let dry_run := dry_run_flag w in
  p <- generate_learning_update ;;
  let tweet := truncate_tweet p.1 in
  let linkedin_post := p.2 in
  if is_empty tweet then
    logging ERROR "Generated tweet is empty." ;;; ret 4%Z
  else if is_empty linkedin_post then
    logging ERROR "Generated LinkedIn post is empty." ;;; ret 5%Z
  else
    save_output tweet linkedin_post (arg_output w)
      (if dry_run then Some (lit "DRY RUN") else None) ;;;
    print ([nl] ++ lit "--- X / TWITTER PREVIEW ---" ++ [nl]) ;;;
    print tweet ;;;
    print ([nl] ++ lit "--- LINKEDIN POST PREVIEW ---" ++ [nl]) ;;;
    print linkedin_post ;;;
    if dry_run then
      logging INFO "DRY RUN ENABLED — No posts published" ;;; ret 0%Z
    else
      init <- try_except (client <- tweepy_Client w ;; ret (inr client)) client_handlers ;;
      match init with
      | inl code => ret code
      | inr client =>
        confirmed <-
          (if arg_yes w then ret true
           else
             resp <- try_except
                       (line <- input (lit "Post the tweet now? (y/N): ") ;;
                        ret (lower (strip line)))
                       (fun e => if is_Exception e
                                 then Some (logging WARNING
                                              "No TTY available; refusing to post without --yes flag" ;;;
                                            ret (lit "n"))
                                 else None) ;;
             ret (PyStr.eqb resp (lit "y"))) ;;
        if negb confirmed then
          logging INFO "Posting skipped by user" ;;;
          save_output tweet linkedin_post (arg_output w) (Some (lit "User skipped posting")) ;;;
          ret 0%Z
        else
          posted <- try_except
                      (response <- client_create_tweet w tweet ;; ret (inr response))
                      (fun e =>
                         if is_TweepyException e then
                           Some (logging ERROR "X API error while posting tweet" ;;;
                                 save_output tweet linkedin_post (arg_output w)
                                   (Some (lit "Failed to post tweet (API error)")) ;;;
                                 ret (inl 6%Z))
                         else if is_Exception e then
                           Some (logging ERROR "Unexpected error while posting tweet" ;;;
                                 save_output tweet linkedin_post (arg_output w)
                                   (Some (lit "Failed to post tweet (unexpected error)")) ;;;
                                 ret (inl 7%Z))
                         else None) ;;
          match posted with
          | inl code => ret code
          | inr tweet_id =>
            logging INFO "Tweet posted successfully" ;;;
            match tweet_id with
            | Some (c :: i) =>
              logging INFO "Tweet ID: %s" ;;;
              save_output tweet linkedin_post (arg_output w)
                (Some (lit "Tweet posted (id=" ++ (c :: i) ++ lit ")"))
            | _ =>
              save_output tweet linkedin_post (arg_output w)
                (Some (lit "Tweet posted (no id returned)"))
            end ;;;
            logging INFO "LinkedIn post generated (manual posting recommended)" ;;;
            ret 0%Z
          end
      end.

End WithWorld.

End Dual.

(** ** [src/Tweet/X Automation/tweet.py]: the first paraphraser *)

Module Legacy.

Definition prompt (text : str) : str :=
  [nl] ++ unlines [
    lit "Paraphrase the text below into a single tweet for learning in public.";
    [];
    lit "Rules:";
    lit "- Keep " ++ [dquote] ++ lit "Day X" ++ [dquote] ++ lit " or "
      ++ [dquote] ++ lit "Day <number>" ++ [dquote] ++ lit " exactly as written if present.";
    lit "- Add 1–2 relevant emojis naturally (not excessive).";
    lit "- Tone should be clear, motivating, and slightly cool.";
    lit "- Not too formal, not too casual.";
    lit "- Use simple, easy-to-understand English.";
    lit "- Avoid fancy or complex words.";
    lit "- Include 1–3 relevant hashtags at the end (like #100DaysOfCode, #LearningInPublic, #BuildInPublic, #Coding).";
    lit "- Use only hashtags that fit the content.";
    lit "- Return ONLY one version.";
    lit "- No explanations, no options, no formatting.";
    lit "- STRICTLY limit the output to a maximum of 280 characters.";
    [];
    lit "Text:";
    text;
    []].

Section WithWorld.
Context (w : World).

Definition paraphrase_text (text : str) : M str :=
  match getenv w "GEMINI_API_KEY" with
  | Some (_ :: _) =>
    response <- models_generate_content w (prompt text) ;;
    tweet <- response_text_strip response ;;
    ret (shape_text tweet)
  | _ => raise (RuntimeError "GEMINI_API_KEY not found in .env")
  end.

(** The [if __name__ == "__main__":] block.  [read_input_from_file] is
    [read_text_from_file] under another name. *)
Definition main : M unit :=
  try_except
    (user_input <- read_text_from_file w "input.txt" ;;
     if is_empty user_input then
       print (lit "input.txt is empty.")
     else
       print ([nl] ++ lit "Paraphrased Output:" ++ [nl]) ;;;
       tweet <- paraphrase_text user_input ;;
       print tweet)
    (fun e => if is_Exception e
              then Some (print (lit ("Error: " +:+ exn_msg e)))
              else None).

End WithWorld.

End Legacy.

(** ** Concrete runs *)

Module Demo.

Definition notes : str := lit "Day 5: learned recursion.".

Definition env_of (l : list (string * list N)) : gmap string (list N) := list_to_map l.

Definition x_keys : list (string * list N) :=
  [("X_API_KEY", lit "ck"); ("X_API_SECRET", lit "cs");
   ("X_ACCESS_TOKEN", lit "at"); ("X_ACCESS_SECRET", lit "as")].

Definition gemini_key : list (string * list N) := [("GEMINI_API_KEY", lit "gk")].


(** A world in which every file opens, the constructor of the posting
    client succeeds, posting is confirmed on the command line, and the
    clock always reads the same. *)
Definition world (env : list (string * list N)) (gen : str -> gen_result)
    (post : str -> post_result) : World :=
  {| environ := env_of env;
     arg_yes := true;
     arg_output := "output.txt";
     read_error := fun _ => None;
     append_error := fun _ => None;
     write_error := fun _ => None;
     generate_content := gen;
     client_init := None;
     create_tweet := post;
     stdin := InputLine (lit "y");
     utcnow_isoformat := fun _ => lit "2024-01-05T08:00:00" |}.

(** Both input files hold [text]; nothing has happened yet. *)
Definition start (text : str) : state :=
  {| fs := list_to_map [("text.txt", text); ("input.txt", text)];
     ticks := 0;
     trace := [] |}.

Definition answers (text : str) : str -> gen_result :=
  fun _ => GenResponse (Some text).

Definition posts_ok : str -> post_result :=
  fun _ => PostResponse (Some (lit "1750")).

Definition posts_fail (e : exn) : str -> post_result :=
  fun _ => PostRaise e.

(** 281 code points that collapse to four: [a], 279 newlines, [b]. *)
Definition gap_text : str := lit "a" ++ replicate 279 nl ++ lit "b".

(** 300 times [a]. *)
Definition long_text : str := replicate 300 97%N.

Definition short_text : str := lit "Day 5" ++ [nl; nl; nl; nl] ++ lit "recursion #100DaysOfCode".

(** A text that ends with half of a surrogate pair, U+D83D: what the JSON
    escape of an emoji cut in two decodes to. *)
Definition unpaired_text : str := lit "Day 5: recursion " ++ [55357%N].

End Demo.

(** ** What a run is observed to do *)

Module Obs.

(** Every state [m] can end in is related by [R] to the state it started in. *)
Definition respects {A} (R : state -> state -> Prop) (m : M A) : Prop :=
  forall st, R st (m st).2.

(** The events so far stay, and every added event satisfies [P]. *)
Definition extends (P : event -> Prop) (st st' : state) : Prop :=
  exists new, trace st' = trace st ++ new /\ Forall P new.

(** As [extends], and the files and the clock are left as they were. *)
Definition grows (P : event -> Prop) (st st' : state) : Prop :=
  fs st' = fs st /\ ticks st' = ticks st /\ extends P st st'.

Definition not_a_post (e : event) : Prop :=
  match e with CreateTweet _ => False | _ => True end.

Definition posts_only (tweet : str) (e : event) : Prop :=
  match e with CreateTweet t => t = tweet | _ => True end.

Definition not_a_request (e : event) : Prop :=
  match e with GenerateContent _ => False | _ => True end.

Definition not_a_warning (e : event) : Prop :=
  match e with Log WARNING _ => False | _ => True end.

(** The events of [st'] that were not yet there in [st]. *)
Definition added (st st' : state) : list event :=
  drop (length (trace st)) (trace st').

(** Every value [m] returns satisfies [Q]. *)
Definition returns {A} (Q : A -> Prop) (m : M A) : Prop :=
  forall st a st', m st = (Return a, st') -> Q a.

(** No file is removed or cut: what a file held is a prefix of what it
    holds, and only the file at [path] may have changed or appeared. *)
Definition appends_to (path : string) (st st' : state) : Prop :=
  (forall p, p <> path -> fs st' !! p = fs st !! p) /\
  (forall c, fs st !! path = Some c -> exists d, fs st' !! path = Some (c ++ d)).

(** The lines [contents] can all be written to the file at [path]: the
    file opens for appending, every line can be encoded, no write fails. *)
Definition writes_all (w : World) (path : string) (contents : list str) : Prop :=
  append_error w path = None /\ write_error w path = None /\
  forallb encodable contents = true.

(** [s] is made of white space only. *)
Definition is_blank (s : str) : bool := forallb is_space s.

(** Anything but a newline. *)
Definition visible (c : N) : bool := negb (c =? nl)%N.

(** The four posting credentials, in the order [main] reads them. *)
Definition credentials : list string :=
  ["X_API_KEY"; "X_API_SECRET"; "X_ACCESS_TOKEN"; "X_ACCESS_SECRET"].

(** The variable is set, and not to the empty string. *)
Definition is_set (w : World) (name : string) : bool :=
  match getenv w name with Some (_ :: _) => true | _ => false end.

(** The first credential that is not set, if any. *)
Definition first_missing (w : World) : option string :=
  List.find (fun name => negb (is_set w name)) credentials.

(** The state with one more event. *)
Definition with_event (st : state) (e : event) : state :=
  {| fs := fs st; ticks := ticks st; trace := trace st ++ [e] |}.

Definition is_error_log (e : event) : Prop :=
  match e with Log ERROR _ => True | _ => False end.

(** There is nothing to paraphrase at [path]: the file is not there, it
    cannot be read, or it holds white space only. *)
Definition no_usable_text (w : World) (st : state) (path : string) : Prop :=
  fs st !! path = None \/
  (exists c e, fs st !! path = Some c /\ read_error w path = Some e /\ is_Exception e = true) \/
  (exists c, fs st !! path = Some c /\ read_error w path = None /\ is_blank c = true).

(** The text [generate_learning_update] paraphrases: the stripped contents
    of the file at [path], when the file is there, readable and not blank. *)
Definition raw_text (w : World) (st : state) (path : string) : option str :=
  match fs st !! path, read_error w path with
  | Some c, None => if is_empty (strip c) then None else Some (strip c)
  | _, _ => None
  end.

(** The key of the generation service is set. *)
Definition has_key (w : World) : bool := is_set w "GEMINI_API_KEY".

(** The prompts of the requests among [evs], and the texts of the posting
    calls among them, in their order. *)
Definition requests (evs : list event) : list str :=
  flat_map (fun e => match e with GenerateContent p => [p] | _ => [] end) evs.

Definition posts (evs : list event) : list str :=
  flat_map (fun e => match e with CreateTweet t => [t] | _ => [] end) evs.

(** Posting was confirmed: by [--yes], or by the answer [y] (in either
    case, white space around it apart) at the prompt. *)
Definition confirmed (w : World) : bool :=
  arg_yes w ||
  match stdin w with
  | InputLine s => PyStr.eqb (lower (strip s)) (lit "y")
  | InputRaise _ => false
  end.

(** After this outcome of the request for the tweet, [paraphrase_for_tweet]
    returns, and the two-platform [generate_learning_update] goes on to the
    request for the long-form post. *)
Definition goes_on (g : gen_result) : bool :=
  match g with
  | GenRaise e => is_Exception e
  | GenResponse (Some _) => true
  | GenResponse None => false
  end.

End Obs.

Import Obs.

(** * Properties *)

Example ellipsis_is_one_code_point : ellipsis = [8230%N].
Proof. reflexivity. Qed.

Example replace_is_left_to_right :
  replace nl3 nl2 [nl; nl; nl; nl; 65%N; nl; nl; nl; nl; nl; nl; nl] =
  [nl; nl; nl; 65%N; nl; nl; nl; nl; nl].
Proof. reflexivity. Qed.

Example replace_of_the_empty_string : replace [] (lit "-") (lit "abc") = lit "-a-b-c-".
Proof. reflexivity. Qed.

(** The message of Python for a text that ends with half a surrogate pair,
    and for a run of surrogates. *)
Example encode_error_names_the_surrogate :
  option_map exn_msg (utf8_encode_error (lit "Day 5: recursion " ++ [55357%N])) =
  Some "'utf-8' codec can't encode character '\ud83d' in position 17: surrogates not allowed"
  /\
  option_map exn_msg (utf8_encode_error (lit "ab" ++ [56320; 56321]%N ++ lit "c")) =
  Some "'utf-8' codec can't encode characters in position 2-3: surrogates not allowed".
Proof. split; vm_compute; reflexivity. Qed.

Example strip_on_both_sides : strip (lit "  a b ") = lit "a b".
Proof. reflexivity. Qed.

Example normalize_caps_the_gaps :
  normalize_blank_lines ([65%N; nl; nl; nl; nl; 66%N; nl; nl; 67%N; nl]) =
  [65%N; nl; nl; 66%N; nl; nl; 67%N; nl].
Proof. reflexivity. Qed.

Section ReplaceFacts.

Lemma is_prefix_nl3 (s : str) :
  is_prefix nl3 s = true <-> exists rest, s = nl :: nl :: nl :: rest.
Proof.
  split.
  - unfold nl3.
    destruct s as [|a [|b [|c rest]]]; cbn [is_prefix];
      rewrite ?andb_false_r; try discriminate.
    rewrite andb_true_r. intros H.
    apply andb_prop in H as [Ha H]. apply andb_prop in H as [Hb Hc].
    apply N.eqb_eq in Ha, Hb, Hc. subst. eauto.
  - intros [rest ->]. reflexivity.
Qed.

Lemma replace_from_skip (old new : str) (k : nat) (s : str) :
  is_empty old = false ->
  replace_from old new k s = replace_from old new 0 (drop k s).
Proof.
  intros Hold. revert s. induction k as [|k IH]; intros s.
  - now rewrite drop_0.
  - destruct s as [|c s]; simpl.
    + reflexivity.
    + apply IH.
Qed.

Lemma replace_nl3_nil : replace nl3 nl2 [] = [].
Proof. reflexivity. Qed.

Lemma replace_nl3_hit (rest : str) :
  replace nl3 nl2 (nl :: nl :: nl :: rest) = nl :: nl :: replace nl3 nl2 rest.
Proof.
  unfold replace. simpl. now rewrite (replace_from_skip nl3 nl2 0).
Qed.

Lemma replace_nl3_miss (c : N) (s : str) :
  is_prefix nl3 (c :: s) = false ->
  replace nl3 nl2 (c :: s) = c :: replace nl3 nl2 s.
Proof.
  intros H. unfold replace. cbn [replace_from]. now rewrite H.
Qed.

(** Induction along the way [replace] walks through a string. *)
Lemma replace_nl3_ind (P : str -> Prop) :
  P [] ->
  (forall c s, is_prefix nl3 (c :: s) = false -> P s -> P (c :: s)) ->
  (forall rest, P rest -> P (nl :: nl :: nl :: rest)) ->
  forall s, P s.
Proof.
  intros Hnil Hmiss Hhit s.
  remember (length s) as n eqn:Hn. revert s Hn.
  induction n as [n IH] using lt_wf_ind. intros s Hn.
  destruct s as [|c s]; [exact Hnil|].
  destruct (is_prefix nl3 (c :: s)) eqn:Hp.
  - apply is_prefix_nl3 in Hp as [rest Hrest]. rewrite Hrest.
    apply Hhit. apply (IH (length rest)); [|reflexivity].
    subst n. rewrite Hrest. simpl. lia.
  - apply Hmiss; [exact Hp|]. apply (IH (length s)); [|reflexivity].
    subst n. simpl. lia.
Qed.

Lemma contains_cons (sub : str) (c : N) (s : str) :
  contains sub (c :: s) = is_prefix sub (c :: s) || contains sub s.
Proof. reflexivity. Qed.

Lemma length_replace_nl3_le (s : str) :
  length (replace nl3 nl2 s) <= length s.
Proof.
  induction s as [|c s Hp IH|rest IH] using replace_nl3_ind.
  - reflexivity.
  - rewrite replace_nl3_miss by exact Hp. simpl. lia.
  - rewrite replace_nl3_hit. simpl. lia.
Qed.

Lemma length_replace_nl3_lt (s : str) :
  contains nl3 s = true -> length (replace nl3 nl2 s) < length s.
Proof.
  induction s as [|c s Hp IH|rest IH] using replace_nl3_ind; intros Hc.
  - discriminate.
  - rewrite contains_cons, Hp in Hc. simpl in Hc.
    rewrite replace_nl3_miss by exact Hp. simpl. apply IH in Hc. lia.
  - rewrite replace_nl3_hit. simpl.
    pose proof (length_replace_nl3_le rest). lia.
Qed.

End ReplaceFacts.

Section LoopFacts.

Lemma collapse_loop_enough (fuel : nat) (s : str) :
  length s < fuel -> exists r, collapse_loop fuel s = Some r.
Proof.
  revert s. induction fuel as [|fuel IH]; intros s Hlen; [lia|].
  cbn [collapse_loop]. destruct (contains nl3 s) eqn:Hc.
  - apply IH. apply length_replace_nl3_lt in Hc. lia.
  - eauto.
Qed.

Lemma collapse_loop_sound (fuel : nat) (s r : str) :
  collapse_loop fuel s = Some r -> while_collapse s r.
Proof.
  revert s. induction fuel as [|fuel IH]; intros s; cbn [collapse_loop];
    [discriminate|].
  destruct (contains nl3 s) eqn:Hc.
  - intros H. apply while_iter; [exact Hc|]. now apply IH.
  - intros [= <-]. now apply while_exit.
Qed.

Lemma while_collapse_det (s r1 r2 : str) :
  while_collapse s r1 -> while_collapse s r2 -> r1 = r2.
Proof.
  intros H1. revert r2. induction H1 as [s Hc|s r Hc _ IH]; intros r2 H2.
  - inversion H2; subst; [reflexivity|congruence].
  - inversion H2; subst; [congruence|]. now apply IH.
Qed.

Lemma while_collapse_exit (s r : str) :
  while_collapse s r -> contains nl3 r = false.
Proof. induction 1; assumption. Qed.

Lemma while_collapse_length (s r : str) :
  while_collapse s r -> length r <= length s.
Proof.
  induction 1 as [s Hc|s r Hc _ IH]; [lia|].
  pose proof (length_replace_nl3_le s). lia.
Qed.

Lemma collapse_spec (s : str) : while_collapse s (collapse s).
Proof.
  unfold collapse.
  destruct (collapse_loop_enough (S (length s)) s) as [r Hr]; [lia|].
  rewrite Hr. eapply collapse_loop_sound, Hr.
Qed.

(** The loop's unfolding equation. *)
Lemma collapse_unfold (s : str) :
  collapse s = if contains nl3 s then collapse (replace nl3 nl2 s) else s.
Proof.
  apply (while_collapse_det s); [apply collapse_spec|].
  destruct (contains nl3 s) eqn:Hc.
  - apply while_iter; [exact Hc|apply collapse_spec].
  - now apply while_exit.
Qed.

Lemma collapse_no_triple (s : str) : contains nl3 (collapse s) = false.
Proof. eapply while_collapse_exit, collapse_spec. Qed.

Lemma collapse_fixed (s : str) : contains nl3 s = false -> collapse s = s.
Proof. intros H. now rewrite collapse_unfold, H. Qed.

Lemma length_collapse (s : str) : length (collapse s) <= length s.
Proof. eapply while_collapse_length, collapse_spec. Qed.

End LoopFacts.

Section CapFacts.

Lemma cap_newlines_sat (k : nat) (s : str) :
  2 <= k -> cap_newlines k s = cap_newlines 2 s.
Proof.
  intros Hk. destruct s as [|c s]; [reflexivity|]. cbn [cap_newlines].
  destruct (c =? nl)%N; [|reflexivity].
  destruct (Nat.ltb_spec k 2); [lia|]. cbn [Nat.ltb Nat.leb].
  revert k Hk H. induction s as [|d s IH]; intros k Hk _; [reflexivity|].
  cbn [cap_newlines]. destruct (d =? nl)%N; [|reflexivity].
  destruct (Nat.ltb_spec (S k) 2); [lia|]. cbn [Nat.ltb Nat.leb].
  rewrite (IH (S k)) by lia. symmetry. apply (IH 3); lia.
Qed.

Lemma cap_newlines_replace (s : str) :
  forall k, cap_newlines k (replace nl3 nl2 s) = cap_newlines k s.
Proof.
  induction s as [|c s Hp IH|rest IH] using replace_nl3_ind; intros k.
  - reflexivity.
  - rewrite replace_nl3_miss by exact Hp. cbn [cap_newlines].
    now rewrite !IH.
  - rewrite replace_nl3_hit. cbn [cap_newlines]. rewrite N.eqb_refl.
    rewrite !IH.
    rewrite (cap_newlines_sat (S (S (S k)))), (cap_newlines_sat (S (S k))) by lia.
    destruct (Nat.ltb_spec k 2), (Nat.ltb_spec (S k) 2), (Nat.ltb_spec (S (S k)) 2);
      try lia; reflexivity.
Qed.

Lemma contains_app_r (sub a b : str) :
  contains sub (a ++ b) = false -> contains sub b = false.
Proof.
  induction a as [|c a IH]; [trivial|]. simpl app. rewrite contains_cons.
  intros H. apply orb_false_elim in H as [_ H]. now apply IH.
Qed.

Lemma cap_newlines_fixed (s : str) :
  forall k, k <= 2 -> contains nl3 (replicate k nl ++ s) = false ->
  cap_newlines k s = s.
Proof.
  induction s as [|c s IH]; intros k Hk Hc; [reflexivity|].
  cbn [cap_newlines]. destruct (N.eqb_spec c nl) as [->|Hne].
  - destruct (Nat.ltb_spec k 2) as [Hlt|Hge].
    + f_equal. apply IH; [lia|].
      change (nl :: s) with ([nl] ++ s) in Hc.
      rewrite app_assoc in Hc.
      replace (replicate k nl ++ [nl]) with (replicate (S k) nl) in Hc; [exact Hc|].
      clear. induction k as [|k IH]; [reflexivity|]. simpl. now rewrite <- IH.
    + assert (k = 2) as -> by lia. cbn in Hc. discriminate.
  - f_equal. apply (IH 0); [lia|]. simpl.
    apply contains_app_r in Hc. rewrite contains_cons in Hc.
    now apply orb_false_elim in Hc as [_ Hc].
Qed.

Lemma while_collapse_cap (s r : str) :
  while_collapse s r -> r = cap_newlines 0 s.
Proof.
  induction 1 as [s Hc|s r Hc _ IH].
  - symmetry. apply cap_newlines_fixed; [lia|exact Hc].
  - now rewrite IH, cap_newlines_replace.
Qed.

Lemma collapse_is_cap (s : str) : collapse s = cap_newlines 0 s.
Proof. apply while_collapse_cap, collapse_spec. Qed.

(** The one-pass reading and the reading by runs agree. *)
Lemma replicate_cap_run (d : N) (n : nat) :
  replicate (cap_run (d, n)).2 (cap_run (d, n)).1
  = if (d =? nl)%N then replicate (Nat.min n 2) nl else replicate n d.
Proof.
  unfold cap_run. cbn [fst snd]. destruct (N.eqb_spec d nl) as [->|_]; [|reflexivity].
  cbn [andb]. destruct (Nat.leb_spec 3 n); cbn [fst snd].
  - replace (Nat.min n 2) with 2 by lia. reflexivity.
  - replace (Nat.min n 2) with n by lia. reflexivity.
Qed.

Lemma cap_newlines_runs (s : str) :
  forall k,
  cap_newlines k s =
  match runs s with
  | [] => []
  | (d, n) :: r =>
    (if (d =? nl)%N then replicate (Nat.min n (2 - k)) nl else replicate n d)
    ++ unruns (map cap_run r)
  end.
Proof.
  induction s as [|c s IH]; intros k; [reflexivity|].
  cbn [cap_newlines runs]. rewrite (IH (S k)), (IH 0).
  destruct (runs s) as [|[d n] r].
  - cbn [map unruns flat_map]. rewrite app_nil_r.
    destruct (c =? nl)%N eqn:Hc; [apply N.eqb_eq in Hc as ->|reflexivity].
    destruct (Nat.ltb_spec k 2) as [Hlt|Hge].
    + replace (Nat.min 1 (2 - k)) with 1 by lia. reflexivity.
    + replace (Nat.min 1 (2 - k)) with 0 by lia. reflexivity.
  - destruct (c =? d)%N eqn:Hcd.
    + apply N.eqb_eq in Hcd as ->.
      destruct (d =? nl)%N eqn:Hd; [apply N.eqb_eq in Hd as ->|reflexivity].
      destruct (Nat.ltb_spec k 2) as [Hlt|Hge].
      * replace (Nat.min (S n) (2 - k)) with (S (Nat.min n (2 - S k))) by lia.
        reflexivity.
      * replace (Nat.min (S n) (2 - k)) with 0 by lia.
        replace (Nat.min n (2 - S k)) with 0 by lia. reflexivity.
    + cbn [map unruns flat_map]. rewrite replicate_cap_run.
      replace (2 - 0) with 2 by lia.
      destruct (c =? nl)%N eqn:Hc.
      * apply N.eqb_eq in Hc as ->.
        assert (Hd : (d =? nl)%N = false).
        { rewrite N.eqb_sym. exact Hcd. }
        rewrite Hd.
        destruct (Nat.ltb_spec k 2) as [Hlt|Hge].
        -- replace (Nat.min 1 (2 - k)) with 1 by lia. reflexivity.
        -- replace (Nat.min 1 (2 - k)) with 0 by lia. reflexivity.
      * reflexivity.
Qed.

Lemma normalize_blank_lines_cap (s : str) :
  normalize_blank_lines s = cap_newlines 0 s.
Proof.
  rewrite cap_newlines_runs. unfold normalize_blank_lines.
  destruct (runs s) as [|[d n] r]; [reflexivity|].
  cbn [map unruns flat_map]. rewrite replicate_cap_run.
  now replace (2 - 0) with 2 by lia.
Qed.

End CapFacts.

Section ShapeFacts.

Lemma length_ellipsis : length ellipsis = 1.
Proof. reflexivity. Qed.

Lemma length_hard_limit (limit : nat) (s : str) :
  0 < limit -> length (hard_limit limit s) <= limit.
Proof.
  intros Hpos. unfold hard_limit. destruct (Nat.ltb_spec limit (length s)) as [Hlt|Hge].
  - rewrite length_app, length_take, length_ellipsis. lia.
  - exact Hge.
Qed.

Lemma hard_limit_over (limit : nat) (s : str) :
  0 < limit -> limit < length s ->
  hard_limit limit s = take (limit - 1) s ++ ellipsis /\
  length (hard_limit limit s) = limit.
Proof.
  intros Hpos Hlt. unfold hard_limit.
  destruct (Nat.ltb_spec limit (length s)) as [_|Hge]; [|lia].
  split; [reflexivity|]. rewrite length_app, length_take, length_ellipsis. lia.
Qed.

Lemma hard_limit_within (limit : nat) (s : str) :
  length s <= limit -> hard_limit limit s = s.
Proof.
  intros Hle. unfold hard_limit.
  destruct (Nat.ltb_spec limit (length s)); [lia|reflexivity].
Qed.

Lemma length_truncate_tweet (text : str) :
  length (Shaper.truncate_tweet text) <= MAX_TWEET_LENGTH.
Proof.
  unfold Shaper.truncate_tweet. destruct (is_empty text); [simpl; lia|].
  destruct (Nat.leb_spec (length text) MAX_TWEET_LENGTH) as [Hle|Hgt]; [exact Hle|].
  rewrite length_app, length_take, length_ellipsis. unfold MAX_TWEET_LENGTH. lia.
Qed.

Lemma replace_nl_space_cons (c : N) (s : str) :
  replace [nl] [space] (c :: s) =
  (if (c =? nl)%N then space else c) :: replace [nl] [space] s.
Proof.
  unfold replace. cbn [replace_from is_prefix is_empty length Nat.sub app].
  rewrite andb_true_r, (N.eqb_sym nl c). now destruct (c =? nl)%N.
Qed.

Lemma replace_nl_space_map (s : str) :
  replace [nl] [space] s = map (fun c => if (c =? nl)%N then space else c) s.
Proof.
  induction s as [|c s IH]; [reflexivity|].
  rewrite replace_nl_space_cons, IH. reflexivity.
Qed.

Lemma length_replace_nl_space (s : str) :
  length (replace [nl] [space] s) = length s.
Proof.
  induction s as [|c s IH]; [reflexivity|].
  rewrite replace_nl_space_cons. simpl. now rewrite IH.
Qed.

Lemma last_snoc_ellipsis (s : str) : last (s ++ ellipsis) = Some 8230%N.
Proof. change ellipsis with [8230%N]. apply last_snoc. Qed.

End ShapeFacts.


(** ** Reasoning about runs *)

Section RespectFacts.
Context (R : state -> state -> Prop) `{!PreOrder R}.

Lemma respects_ret {A} (a : A) : respects R (ret a).
Proof. intros st. reflexivity. Qed.

Lemma respects_raise {A} (e : exn) : respects R (@raise A e).
Proof. intros st. reflexivity. Qed.

Lemma respects_get_fs : respects R get_fs.
Proof. intros st. reflexivity. Qed.

Lemma respects_bind {A B} (m : M A) (k : A -> M B) :
  respects R m -> (forall a, respects R (k a)) -> respects R (bind m k).
Proof.
  intros Hm Hk st. unfold bind. specialize (Hm st).
  destruct (m st) as [[a|e] st1]; cbn [snd] in Hm |- *.
  - etransitivity; [exact Hm|exact (Hk a st1)].
  - exact Hm.
Qed.

Lemma respects_try_except {A} (body : M A) (handlers : exn -> option (M A)) :
  respects R body -> (forall e h, handlers e = Some h -> respects R h) ->
  respects R (try_except body handlers).
Proof.
  intros Hb Hh st. unfold try_except. specialize (Hb st).
  destruct (body st) as [[a|e] st1]; cbn [snd] in Hb |- *.
  - exact Hb.
  - destruct (handlers e) as [h|] eqn:He; cbn [snd].
    + etransitivity; [exact Hb|]. exact (Hh e h He st1).
    + exact Hb.
Qed.

End RespectFacts.

Section ExtendFacts.
Context (P : event -> Prop).

#[local] Instance extends_preorder : PreOrder (extends P).
Proof.
  split.
  - intros st. exists []. now rewrite app_nil_r.
  - intros a b c [n1 [E1 F1]] [n2 [E2 F2]]. exists (n1 ++ n2).
    rewrite E2, E1, app_assoc. split; [reflexivity|]. now apply Forall_app.
Qed.

#[local] Instance grows_preorder : PreOrder (grows P).
Proof.
  split.
  - intros st. repeat split. reflexivity.
  - intros a b c (Hf1 & Ht1 & He1) (Hf2 & Ht2 & He2).
    repeat split; [congruence|congruence|]. now transitivity b.
Qed.

Lemma extends_emit (e : event) : P e -> respects (extends P) (emit e).
Proof. intros He st. exists [e]. split; [reflexivity|]. now constructor. Qed.

Lemma grows_emit (e : event) : P e -> respects (grows P) (emit e).
Proof. intros He st. repeat split. now apply extends_emit. Qed.

Lemma grows_extends {A} (m : M A) : respects (grows P) m -> respects (extends P) m.
Proof. intros H st. apply H. Qed.

Lemma extends_In (st st' : state) (e : event) :
  extends P st st' -> In e (trace st') -> In e (trace st) \/ P e.
Proof.
  intros [new [E F]] Hin. rewrite E in Hin. apply in_app_or in Hin as [Hin|Hin].
  - now left.
  - right. rewrite Forall_forall in F. apply F. now apply list_elem_of_In.
Qed.

End ExtendFacts.

#[local] Existing Instance extends_preorder.
#[local] Existing Instance grows_preorder.

Ltac respects_handler H :=
  cbv beta delta [client_handlers] in H;
  repeat match type of H with
         | (if ?b then _ else _) = Some _ => destruct b
         end;
  first [discriminate H | injection H as <-].

Ltac respects_emit :=
  first [apply grows_emit | apply extends_emit]; first [exact I | reflexivity].

Ltac respects_step :=
  lazymatch goal with
  | |- respects _ (bind _ _) => apply respects_bind; [tc_solve| |intros ?]
  | |- respects _ (ret _) => apply respects_ret; tc_solve
  | |- respects _ (raise _) => apply respects_raise; tc_solve
  | |- respects _ get_fs => apply respects_get_fs; tc_solve
  | |- respects _ (try_except _ _) =>
    apply respects_try_except;
    [tc_solve| |let e := fresh "e" in let h := fresh "h" in let H := fresh "H" in
      intros e h H; respects_handler H]
  | |- respects _ (logging _ _) => respects_emit
  | |- respects _ (print _) => respects_emit
  | |- respects _ (emit _) => respects_emit
  | |- respects _ (match ?x with _ => _ end) => destruct x
  end.

Ltac respects_auto := repeat respects_step.

Section QuietFacts.
Context (w : World).

Lemma get_env_var_grows (P : event -> Prop) (name : string) :
  respects (grows P) (_get_env_var w name).
Proof. unfold _get_env_var. respects_auto. Qed.

Lemma tweepy_Client_grows (P : event -> Prop) : respects (grows P) (tweepy_Client w).
Proof.
  unfold tweepy_Client.
  repeat (apply respects_bind; [tc_solve|apply get_env_var_grows|intros ?]).
  respects_auto.
Qed.

Lemma read_text_from_file_grows (P : event -> Prop) (path : string) :
  respects (grows P) (read_text_from_file w path).
Proof. unfold read_text_from_file. respects_auto. Qed.

Lemma response_text_strip_grows (P : event -> Prop) (text : option (list N)) :
  respects (grows P) (response_text_strip text).
Proof. unfold response_text_strip. respects_auto. Qed.

Lemma models_generate_content_grows (prompt : str) :
  respects (grows not_a_post) (models_generate_content w prompt).
Proof. unfold models_generate_content. respects_auto. Qed.

Lemma single_paraphrase_grows (text : str) :
  respects (grows not_a_post) (Single.paraphrase_for_tweet w text).
Proof.
  unfold Single.paraphrase_for_tweet. destruct (is_empty text); [respects_auto|].
  apply respects_bind; [tc_solve|apply get_env_var_grows|intros ?].
  apply respects_bind; [tc_solve| |intros [r|]; [|respects_auto]].
  - apply respects_try_except; [tc_solve| |intros e h H; respects_handler H; respects_auto].
    apply respects_bind; [tc_solve|apply models_generate_content_grows|intros ?].
    respects_auto.
  - apply respects_bind; [tc_solve|apply response_text_strip_grows|intros ?].
    respects_auto.
Qed.

Lemma dual_paraphrase_tweet_grows (text : str) :
  respects (grows not_a_post) (Dual.paraphrase_for_tweet w text).
Proof.
  unfold Dual.paraphrase_for_tweet. destruct (is_empty text); [respects_auto|].
  apply respects_bind; [tc_solve|apply get_env_var_grows|intros ?].
  apply respects_bind; [tc_solve| |intros [r|]; [|respects_auto]].
  - apply respects_try_except; [tc_solve| |intros e h H; respects_handler H; respects_auto].
    apply respects_bind; [tc_solve|apply models_generate_content_grows|intros ?].
    respects_auto.
  - apply respects_bind; [tc_solve|apply response_text_strip_grows|intros ?].
    respects_auto.
Qed.

Lemma dual_paraphrase_linkedin_grows (text : str) :
  respects (grows not_a_post) (Dual.paraphrase_for_linkedin w text).
Proof.
  unfold Dual.paraphrase_for_linkedin. destruct (is_empty text); [respects_auto|].
  apply respects_bind; [tc_solve|apply get_env_var_grows|intros ?].
  apply respects_bind; [tc_solve| |intros [r|]; [|respects_auto]].
  - apply respects_try_except; [tc_solve| |intros e h H; respects_handler H; respects_auto].
    apply respects_bind; [tc_solve|apply models_generate_content_grows|intros ?].
    respects_auto.
  - apply respects_bind; [tc_solve|apply response_text_strip_grows|intros ?].
    respects_auto.
Qed.

Lemma single_generate_grows :
  respects (grows not_a_post) (Single.generate_learning_update w).
Proof.
  unfold Single.generate_learning_update.
  apply respects_bind; [tc_solve| |intros [raw|]; [|respects_auto]].
  - apply respects_try_except; [tc_solve| |intros e h H; respects_handler H; respects_auto].
    apply respects_bind; [tc_solve|apply read_text_from_file_grows|intros ?].
    respects_auto.
  - destruct (is_empty raw); [respects_auto|].
    apply respects_bind; [tc_solve|respects_auto|intros ?].
    apply single_paraphrase_grows.
Qed.

Lemma dual_generate_grows :
  respects (grows not_a_post) (Dual.generate_learning_update w).
Proof.
  unfold Dual.generate_learning_update.
  apply respects_bind; [tc_solve| |intros [raw|]; [|respects_auto]].
  - apply respects_try_except; [tc_solve| |intros e h H; respects_handler H; respects_auto].
    apply respects_bind; [tc_solve|apply read_text_from_file_grows|intros ?].
    respects_auto.
  - destruct (is_empty raw); [respects_auto|].
    apply respects_bind; [tc_solve|respects_auto|intros ?].
    apply respects_bind; [tc_solve|apply dual_paraphrase_tweet_grows|intros ?].
    apply respects_bind; [tc_solve|apply dual_paraphrase_linkedin_grows|intros ?].
    respects_auto.
Qed.

Lemma single_truncate_grows (P : event -> Prop) (text : str) :
  (forall l m, P (Log l m)) -> respects (grows P) (Single.truncate_tweet text).
Proof.
  intros HP. unfold Single.truncate_tweet.
  destruct (is_empty text); [respects_auto|].
  destruct (length text <=? MAX_TWEET_LENGTH); [respects_auto|].
  apply respects_bind; [tc_solve|apply grows_emit, HP|intros ?]. respects_auto.
Qed.

Lemma utcnow_extends (P : event -> Prop) : respects (extends P) (Dual.utcnow w).
Proof. intros st. exists []. cbn. now rewrite app_nil_r. Qed.

Lemma write_to_extends (P : event -> Prop) (path : string) (text : str) :
  (forall p c, P (FileAppend p c)) ->
  respects (extends P) (Dual.write_to path text).
Proof.
  intros HP st. exists [FileAppend path text]. cbn. split; [reflexivity|].
  constructor; [apply HP|constructor].
Qed.

Lemma append_lines_extends (P : event -> Prop) (path : string) (contents : list (list N)) :
  (forall p c, P (FileAppend p c)) ->
  respects (extends P) (Dual.append_lines w path contents).
Proof.
  intros HP. unfold Dual.append_lines. destruct (append_error w path); [respects_auto|].
  destruct (Dual.writelines contents) as [text failed].
  destruct (write_error w path) as [[n e]|].
  - apply respects_bind; [tc_solve|now apply write_to_extends|intros ?]. respects_auto.
  - apply respects_bind; [tc_solve|now apply write_to_extends|intros ?].
    destruct failed; respects_auto.
Qed.

Lemma save_output_extends (P : event -> Prop) (tweet linkedin_post : str)
    (path : string) (note : option (list N)) :
  (forall p c, P (FileAppend p c)) -> (forall l m, P (Log l m)) ->
  respects (extends P) (Dual.save_output w tweet linkedin_post path note).
Proof.
  intros HF HL. unfold Dual.save_output.
  apply respects_bind; [tc_solve|apply utcnow_extends|intros now].
  apply respects_try_except; [tc_solve| |].
  - apply respects_bind; [tc_solve|now apply append_lines_extends|intros ?].
    apply extends_emit, HL.
  - intros e h H. respects_handler H. apply extends_emit, HL.
Qed.

Lemma client_create_tweet_extends (tweet : str) :
  respects (extends (posts_only tweet)) (client_create_tweet w tweet).
Proof. unfold client_create_tweet. respects_auto. Qed.

Lemma input_extends (P : event -> Prop) (prompt : str) :
  (forall p, P (Input p)) -> respects (extends P) (Dual.input w prompt).
Proof.
  intros HP. unfold Dual.input.
  apply respects_bind; [tc_solve|apply extends_emit, HP|intros ?]. respects_auto.
Qed.

End QuietFacts.

Lemma respects_at {A} (R : state -> state -> Prop) (m : M A) (st : state) :
  respects R m -> R st (m st).2.
Proof. intros H. apply H. Qed.

Lemma bind_run {A B} (m : M A) (k : A -> M B) (st : state) :
  bind m k st =
  match m st with
  | (Return a, st1) => k a st1
  | (Raise e, st1) => (Raise e, st1)
  end.
Proof. reflexivity. Qed.

Ltac main_step :=
  lazymatch goal with
  | |- respects _ (Dual.save_output _ _ _ _ _) =>
    apply save_output_extends; intros; exact I
  | |- respects _ (tweepy_Client _) => apply grows_extends, tweepy_Client_grows
  | |- respects _ (client_create_tweet _ _) => apply client_create_tweet_extends
  | |- respects _ (Dual.input _ _) => apply input_extends; intros; exact I
  | |- _ => respects_step
  end.

Section MainTraces.
Context (w : World).

(** After the generation step, [main] of the two-platform variant posts
    nothing but the truncated tweet. *)
Lemma dual_main_posts (st : state) :
  match Dual.generate_learning_update w st with
  | (Return p, st1) =>
    extends (posts_only (Dual.truncate_tweet p.1)) st1 (Dual.main w st).2
  | (Raise e, st1) => (Dual.main w st).2 = st1
  end.
Proof.
  unfold Dual.main. cbv zeta. rewrite bind_run.
  destruct (Dual.generate_learning_update w st) as [[p|e] st1]; [|reflexivity].
  apply (respects_at (extends (posts_only (Dual.truncate_tweet p.1)))).
  repeat main_step.
Qed.

End MainTraces.

Section Inversion.
Context {A B : Type}.

Lemma bind_inv (m : M A) (k : A -> M B) (st st' : state) (r : outcome B) :
  bind m k st = (r, st') ->
  (exists a st1, m st = (Return a, st1) /\ k a st1 = (r, st')) \/
  (exists e, m st = (Raise e, st') /\ r = Raise e).
Proof.
  unfold bind. destruct (m st) as [[a|e] st1].
  - intros H. left. eauto.
  - intros [= <- <-]. right. eauto.
Qed.

Lemma try_except_inv (body : M A) (handlers : exn -> option (M A))
    (st st' : state) (r : outcome A) :
  try_except body handlers st = (r, st') ->
  (exists a, body st = (Return a, st') /\ r = Return a) \/
  (exists e st1, body st = (Raise e, st1) /\
     ((exists h, handlers e = Some h /\ h st1 = (r, st')) \/
      (handlers e = None /\ r = Raise e /\ st' = st1))).
Proof.
  unfold try_except. destruct (body st) as [[a|e] st1].
  - intros [= <- <-]. left. eauto.
  - destruct (handlers e) as [h|] eqn:He.
    + intros H. right. exists e, st1. split; [reflexivity|]. left. eauto.
    + intros [= <- <-]. right. exists e, st1. split; [reflexivity|]. right. auto.
Qed.

End Inversion.

Lemma ret_inv {A} (a : A) (st st' : state) (r : outcome A) :
  ret a st = (r, st') -> r = Return a /\ st' = st.
Proof. now intros [= <- <-]. Qed.

Lemma raise_inv {A} (e : exn) (st st' : state) (r : outcome A) :
  raise e st = (r, st') -> r = Raise e /\ st' = st.
Proof. now intros [= <- <-]. Qed.

Lemma emit_inv (ev : event) (st st' : state) (r : outcome unit) :
  emit ev st = (r, st') ->
  r = Return tt /\ st' = {| fs := fs st; ticks := ticks st; trace := trace st ++ [ev] |}.
Proof. now intros [= <- <-]. Qed.

Lemma client_create_tweet_raise (w : World) (t : str) (st st' : state) (e : exn) :
  client_create_tweet w t st = (Raise e, st') -> create_tweet w t = PostRaise e.
Proof.
  unfold client_create_tweet. intros H.
  apply bind_inv in H as [(a & st1 & _ & H)|(e' & H & _)]; [|discriminate H].
  destruct (create_tweet w t) as [e'|i]; [|discriminate H].
  now apply raise_inv in H as [[= ->] _].
Qed.

Ltac inv_step :=
  match goal with
  | H : ?x = ?x |- _ => clear H
  | H : (_, _) = (_, _) |- _ => injection H as ? ?
  | H : Raise _ = Raise _ |- _ => injection H as ?
  | H : Return _ = Return _ |- _ => injection H as ?
  | H : Raise _ = Return _ |- _ => discriminate H
  | H : Return _ = Raise _ |- _ => discriminate H
  | H : inl _ = inr _ |- _ => discriminate H
  | H : inr _ = inl _ |- _ => discriminate H
  | H : inl _ = inl _ |- _ => injection H as ?
  | H : inr _ = inr _ |- _ => injection H as ?
  | H : Some _ = None |- _ => discriminate H
  | H : None = Some _ |- _ => discriminate H
  | H : Some _ = Some _ |- _ => injection H as ?
  | H : bind _ _ _ = (_, _) |- _ =>
    apply bind_inv in H as [(? & ? & ? & H)|(? & H & ?)]; cbv beta in H
  | H : try_except _ _ _ = (_, _) |- _ =>
    apply try_except_inv in H
      as [(? & H & ?)|(? & ? & H & [(? & ? & ?)|(? & ? & ?)])]
  | H : ret _ _ = (_, _) |- _ => apply ret_inv in H as [? ?]
  | H : raise _ _ = (_, _) |- _ => apply raise_inv in H as [? ?]
  | H : emit _ _ = (_, _) |- _ => apply emit_inv in H as [? ?]
  | H : logging _ _ _ = (_, _) |- _ => apply emit_inv in H as [? ?]
  | H : print _ _ = (_, _) |- _ => apply emit_inv in H as [? ?]
  | H : (if ?b then _ else _) _ = (_, _) |- _ => destruct b eqn:?
  | H : (if ?b then _ else _) = Some _ |- _ => destruct b eqn:?
  | H : (match ?x with _ => _ end) _ = (_, _) |- _ => destruct x eqn:?
  | H : client_handlers _ = Some _ |- _ => unfold client_handlers in H
  | H : (fun _ => _) _ = _ |- _ => cbv beta in H
  end.

Ltac inv_run := repeat (inv_step; subst; cbn [fs ticks trace] in *; try discriminate).


Section ExitCodes.
Context (w : World).

Lemma dual_codes (st st' : state) (c : Z) :
  Dual.main w st = (Return c, st') ->
  c = 0%Z \/ c = 2%Z \/ c = 3%Z \/ c = 4%Z \/ c = 5%Z \/
  (c = 6%Z /\ exists t e, create_tweet w t = PostRaise e /\ is_TweepyException e = true) \/
  (c = 7%Z /\ exists t e, create_tweet w t = PostRaise e /\ is_TweepyException e = false
     /\ is_Exception e = true).
Proof.
  unfold Dual.main. intros H. inv_run.
  all: try tauto.
  all: try (do 5 right; left; split; [reflexivity|];
    eexists _, _; split; [eapply client_create_tweet_raise; eassumption|auto]).
  all: try (do 6 right; split; [reflexivity|];
    eexists _, _; split; [eapply client_create_tweet_raise; eassumption|auto]).
Qed.

Lemma single_codes (st st' : state) (c : Z) :
  Single.main w st = (Return c, st') ->
  c = 0%Z \/ c = 2%Z \/ c = 3%Z \/ c = 4%Z \/
  (c = 5%Z /\ exists t e, create_tweet w t = PostRaise e /\ is_TweepyException e = true) \/
  (c = 6%Z /\ exists t e, create_tweet w t = PostRaise e /\ is_TweepyException e = false
     /\ is_Exception e = true).
Proof.
  unfold Single.main. intros H. inv_run.
  all: try tauto.
  all: try (do 4 right; left; split; [reflexivity|];
    eexists _, _; split; [eapply client_create_tweet_raise; eassumption|auto]).
  all: try (do 5 right; split; [reflexivity|];
    eexists _, _; split; [eapply client_create_tweet_raise; eassumption|auto]).
Qed.

End ExitCodes.

Section Forward.
Context (w : World).

Lemma eqb_eq (a b : str) : PyStr.eqb a b = true <-> a = b.
Proof.
  revert b. induction a as [|x a IH]; intros [|y b]; cbn [PyStr.eqb]; try easy.
  rewrite andb_true_iff, N.eqb_eq, IH. split; [intros [-> ->]|intros [= -> ->]]; easy.
Qed.


Lemma get_env_var_pure (name : string) (st : state) :
  (_get_env_var w name st).2 = st.
Proof. unfold _get_env_var. now destruct (getenv w name) as [[|c v]|]. Qed.

Lemma tweepy_Client_pure (st : state) : (tweepy_Client w st).2 = st.
Proof.
  pose proof (tweepy_Client_grows w (fun _ => False) st) as (Hf & Ht & new & E & F).
  destruct new as [|e new]; [|now inversion F].
  rewrite app_nil_r in E. destruct (tweepy_Client w st).2, st.
  cbn in *. congruence.
Qed.

Lemma client_ready (st : state) :
  (tweepy_Client w st).1 = Return tt ->
  try_except (client <- tweepy_Client w ;; ret (inr client)) client_handlers st
  = (Return (inr tt), st).
Proof.
  intros H. pose proof (tweepy_Client_pure st) as Hst.
  unfold try_except. rewrite bind_run.
  destruct (tweepy_Client w st) as [r st1]. cbn [fst snd] in *. now subst.
Qed.

Lemma single_truncate_run (text : str) (st : state) :
  (Single.truncate_tweet text st).1 = Return (Shaper.truncate_tweet text) /\
  grows not_a_post st (Single.truncate_tweet text st).2.
Proof.
  split; [|now apply single_truncate_grows].
  unfold Single.truncate_tweet, Shaper.truncate_tweet.
  destruct (is_empty text); [reflexivity|].
  now destruct (length text <=? MAX_TWEET_LENGTH).
Qed.

End Forward.

Section Writing.
Context (w : World).

Lemma first_surrogates_none (s : str) (pos : nat) :
  encodable s = true -> first_surrogates pos s = None.
Proof.
  revert pos. induction s as [|c s IH]; intros pos H; [reflexivity|].
  cbn [encodable forallb] in H. apply andb_prop in H as [Hc Hs].
  apply negb_true_iff in Hc. cbn [first_surrogates]. rewrite Hc. now apply IH.
Qed.

Lemma first_surrogates_some (s : str) (pos : nat) :
  encodable s = false -> exists r, first_surrogates pos s = Some r.
Proof.
  revert pos. induction s as [|c s IH]; intros pos H; [discriminate H|].
  cbn [encodable forallb] in H. cbn [first_surrogates].
  destruct (is_surrogate c); [eauto|]. now apply IH.
Qed.

Lemma encodable_no_error (s : str) : encodable s = true -> utf8_encode_error s = None.
Proof. intros H. unfold utf8_encode_error. now rewrite first_surrogates_none. Qed.

Lemma not_encodable_error (s : str) :
  encodable s = false ->
  exists e, utf8_encode_error s = Some e /\ is_Exception e = true.
Proof.
  intros H. unfold utf8_encode_error.
  destruct (first_surrogates_some s 0 H) as [[[pos c] more] ->]. eauto.
Qed.

Lemma writelines_all (contents : list (list N)) :
  forallb encodable contents = true ->
  Dual.writelines contents = (concat contents, None).
Proof.
  induction contents as [|line rest IH]; intros H; [reflexivity|].
  cbn [forallb] in H. apply andb_prop in H as [Hl Hr].
  cbn [Dual.writelines concat]. now rewrite (encodable_no_error line Hl), (IH Hr).
Qed.

Lemma writelines_stop (good : list (list N)) (bad : str) (rest : list (list N)) :
  forallb encodable good = true -> encodable bad = false ->
  exists e, Dual.writelines (good ++ bad :: rest) = (concat good, Some e)
            /\ is_Exception e = true.
Proof.
  intros Hg Hb. induction good as [|line good IH].
  - destruct (not_encodable_error bad Hb) as (e & He & HE). exists e.
    cbn [app Dual.writelines concat]. now rewrite He.
  - cbn [forallb] in Hg. apply andb_prop in Hg as [Hl Hg].
    destruct (IH Hg) as (e & He & HE). exists e.
    cbn [app Dual.writelines concat]. now rewrite (encodable_no_error line Hl), He.
Qed.

Lemma writelines_prefix (contents : list (list N)) :
  (Dual.writelines contents).1 `prefix_of` concat contents.
Proof.
  induction contents as [|line rest IH]; [reflexivity|].
  cbn [Dual.writelines concat]. destruct (utf8_encode_error line).
  - apply prefix_nil.
  - destruct (Dual.writelines rest) as [text failed]. cbn [fst] in *.
    now apply prefix_app.
Qed.

Lemma writelines_failed (contents : list (list N)) (e : exn) :
  (Dual.writelines contents).2 = Some e -> is_Exception e = true.
Proof.
  induction contents as [|line rest IH]; [discriminate|].
  cbn [Dual.writelines]. unfold utf8_encode_error at 1.
  destruct (first_surrogates 0 line) as [[[pos c] more]|].
  - now intros [= <-].
  - destruct (Dual.writelines rest) as [text failed]. exact IH.
Qed.

(** The state after [text] was added to the file at [path]. *)
Lemma write_to_run (path : string) (text : str) (st : state) :
  Dual.write_to path text st =
  (Return tt,
   {| fs := <[path := default [] (fs st !! path) ++ text]> (fs st);
      ticks := ticks st;
      trace := trace st ++ [FileAppend path text] |}).
Proof. reflexivity. Qed.

(** What [save_output] leaves behind when all of the record is written. *)
Lemma save_output_ok (tweet linkedin_post : str) (path : string)
    (note : option (list N)) (st : state) :
  writes_all w path (Dual.record_lines (utcnow_isoformat w (ticks st))
                       tweet linkedin_post note) ->
  Dual.save_output w tweet linkedin_post path note st =
  let text := concat (Dual.record_lines (utcnow_isoformat w (ticks st))
                        tweet linkedin_post note) in
  (Return tt,
   {| fs := <[path := default [] (fs st !! path) ++ text]> (fs st);
      ticks := S (ticks st);
      trace := trace st ++ [FileAppend path text; Log INFO "Saved outputs to %s"] |}).
Proof.
  intros (Ha & Hw & He). unfold Dual.save_output, Dual.append_lines, try_except.
  rewrite bind_run. cbn [Dual.utcnow]. cbv beta iota zeta.
  rewrite bind_run, Ha, (writelines_all _ He), Hw, bind_run, write_to_run.
  cbn [ret logging emit fs ticks trace]. now rewrite <- app_assoc.
Qed.

End Writing.

Section Lines.







End Lines.

Section MainRuns.
Context (w : World).

Lemma is_empty_nil (s : str) : is_empty s = true <-> s = [].
Proof. now destruct s. Qed.

Lemma is_empty_cons (s : str) : is_empty s = false <-> s <> [].
Proof. now destruct s. Qed.

(** *** The two-platform variant *)

Lemma dual_generate_empty_file (st : state) (contents : str) :
  fs st !! "input.txt" = Some contents ->
  read_error w "input.txt" = None ->
  strip contents = [] ->
  Dual.generate_learning_update w st =
  (Return ([], []),
   {| fs := fs st; ticks := ticks st;
      trace := trace st ++ [Log ERROR "input.txt is empty."] |}).
Proof.
  intros Hf Hr Hs. unfold Dual.generate_learning_update, read_text_from_file.
  rewrite bind_run. unfold try_except. rewrite !bind_run.
  cbn [get_fs]. rewrite Hf, Hr. cbn [ret]. rewrite Hs. reflexivity.
Qed.

Lemma dual_main_empty_tweet (st st1 : state) (p : list N * list N) :
  Dual.generate_learning_update w st = (Return p, st1) ->
  Dual.truncate_tweet p.1 = [] ->
  Dual.main w st =
  (Return 4%Z,
   {| fs := fs st1; ticks := ticks st1;
      trace := trace st1 ++ [Log ERROR "Generated tweet is empty."] |}).
Proof.
  intros Hg He. unfold Dual.main. cbv zeta. rewrite bind_run, Hg, He. reflexivity.
Qed.

Lemma dual_main_empty_post (st st1 : state) (p : list N * list N) :
  Dual.generate_learning_update w st = (Return p, st1) ->
  Dual.truncate_tweet p.1 <> [] ->
  p.2 = [] ->
  Dual.main w st =
  (Return 5%Z,
   {| fs := fs st1; ticks := ticks st1;
      trace := trace st1 ++ [Log ERROR "Generated LinkedIn post is empty."] |}).
Proof.
  intros Hg Ht He. apply is_empty_cons in Ht.
  unfold Dual.main. cbv zeta. rewrite bind_run, Hg, Ht, He. reflexivity.
Qed.


(** *** The single-platform variant *)

Lemma single_generate_empty_file (st : state) (contents : str) :
  fs st !! "text.txt" = Some contents ->
  read_error w "text.txt" = None ->
  strip contents = [] ->
  Single.generate_learning_update w st =
  (Return [],
   {| fs := fs st; ticks := ticks st;
      trace := trace st ++ [Log ERROR "text.txt is empty."] |}).
Proof.
  intros Hf Hr Hs. unfold Single.generate_learning_update, read_text_from_file.
  rewrite bind_run. unfold try_except. rewrite !bind_run.
  cbn [get_fs]. rewrite Hf, Hr. cbn [ret]. rewrite Hs. reflexivity.
Qed.

(** [main] once the posting client is there: the generation step, the
    truncation, and what follows them. *)
Lemma single_main_ready (st st1 : state) (t : str) :
  (tweepy_Client w st).1 = Return tt ->
  Single.generate_learning_update w st = (Return t, st1) ->
  exists st2,
    grows not_a_post st st2 /\
    Single.main w st =
    (let tweet := Shaper.truncate_tweet t in
     if is_empty tweet then
       logging ERROR "Generated tweet is empty." ;;; ret 4%Z
     else if dry_run_flag w then
       logging INFO "DRY RUN ENABLED — Tweet not posted" ;;;
       print ([nl] ++ lit "--- TWEET PREVIEW ---" ++ [nl]) ;;;
       print tweet ;;;
       print ([nl] ++ lit "--------------------" ++ [nl]) ;;;
       ret 0%Z
     else
       posted <- try_except
                   (response <- client_create_tweet w tweet ;; ret (inr response))
                   (fun e =>
                      if is_TweepyException e then
                        Some (logging ERROR "X API error while posting tweet" ;;; ret (inl 5%Z))
                      else if is_Exception e then
                        Some (logging ERROR "Unexpected error while posting tweet" ;;; ret (inl 6%Z))
                      else None) ;;
       match posted with
       | inl code => ret code
       | inr tweet_id =>
         logging INFO "Tweet posted successfully" ;;;
         match tweet_id with
         | Some (_ :: _) => logging INFO "Tweet ID: %s"
         | _ => ret tt
         end ;;;
         ret 0%Z
       end) st2.
Proof.
  intros Hc Hg.
  destruct (single_truncate_run t st1) as [Ht Hgr].
  destruct (Single.truncate_tweet t st1) as [r st2] eqn:Htr. cbn [fst snd] in Ht, Hgr.
  subst r. exists st2. split.
  - transitivity st1; [|exact Hgr].
    pose proof (single_generate_grows w st) as H. now rewrite Hg in H.
  - unfold Single.main. cbv zeta.
    rewrite bind_run, (client_ready w st Hc), bind_run, Hg, bind_run, Htr.
    reflexivity.
Qed.

End MainRuns.

(** * The claims *)

(** ** Shaping *)

(** C1 (as amended).  The tweet shaping of [paraphrase_for_tweet] truncates
    by the length of the text after the blank lines were collapsed: when
    that exceeds 280, the result is the first 279 code points of the
    collapsed text followed by one ellipsis, 280 code points in all; when
    it does not, the collapsed text is returned as it is.  [paraphrase_text]
    collapses nothing: its [replace] turns each newline into one space and
    leaves every other code point where it is; a text of at most 280 code
    points is returned so, and past 280 the first 277 code points of it are
    kept and three full stops appended, again 280 code points in all. *)
Theorem C1_truncation_after_collapse (s : str) :
  (280 < length (collapse s) ->
     shape_tweet s = take 279 (collapse s) ++ ellipsis /\
     length (shape_tweet s) = 280 /\
     last (shape_tweet s) = Some 8230%N) /\
  (length (collapse s) <= 280 -> shape_tweet s = collapse s) /\
  replace [nl] [space] s = map (fun c => if (c =? nl)%N then space else c) s /\
  (length s <= 280 -> shape_text s = replace [nl] [space] s) /\
  (280 < length s ->
     shape_text s = take 277 (replace [nl] [space] s) ++ lit "..." /\
     length (shape_text s) = 280 /\
     last (shape_text s) = Some 46%N).
Proof.
  split; [|split; [|split; [|split]]].
  - intros Hlen. unfold shape_tweet.
    destruct (hard_limit_over MAX_TWEET_LENGTH (collapse s)) as [E L];
      [unfold MAX_TWEET_LENGTH; lia|exact Hlen|].
    rewrite E. split; [reflexivity|]. split.
    + rewrite <- E. exact L.
    + apply last_snoc_ellipsis.
  - intros Hlen. unfold shape_tweet. now apply hard_limit_within.
  - apply replace_nl_space_map.
  - intros Hlen. unfold shape_text. cbv zeta. rewrite length_replace_nl_space.
    destruct (Nat.ltb_spec 280 (length s)) as [Hgt|_]; [lia|reflexivity].
  - intros Hlen. unfold shape_text. cbv zeta. rewrite length_replace_nl_space.
    destruct (Nat.ltb_spec 280 (length s)) as [_|Hge]; [|lia].
    split; [reflexivity|]. split.
    + rewrite length_app, length_take, length_replace_nl_space.
      change (length (lit "...")) with 3. lia.
    + change (lit "...") with ([46%N; 46%N] ++ [46%N]).
      rewrite app_assoc. apply last_snoc.
Qed.

Lemma C1_truncation_after_collapse_witness :
  shape_tweet Demo.long_text = take 279 (collapse Demo.long_text) ++ ellipsis /\
  length (shape_tweet Demo.long_text) = 280 /\
  last (shape_tweet Demo.long_text) = Some 8230%N.
Proof.
  apply (proj1 (C1_truncation_after_collapse Demo.long_text)).
  vm_compute. lia.
Defined.

(** C1 as stated fails: a text of 281 code points whose blank lines
    collapse is returned with 4 code points and no ellipsis, and
    [paraphrase_text] ends a long text with a full stop. *)
Lemma C1_counterexample :
  280 < length Demo.gap_text /\
  shape_tweet Demo.gap_text = lit "a" ++ [nl; nl] ++ lit "b" /\
  length (shape_tweet Demo.gap_text) = 4 /\
  280 < length Demo.long_text /\
  last (shape_text Demo.long_text) = Some 46%N.
Proof.
  split; [vm_compute; lia|]. split; [vm_compute; reflexivity|].
  split; [vm_compute; reflexivity|]. split; [vm_compute; lia|].
  vm_compute. reflexivity.
Qed.

Lemma collapse_is_normalize (s : str) : collapse s = normalize_blank_lines s.
Proof. now rewrite collapse_is_cap, normalize_blank_lines_cap. Qed.

(** C6.  A text of at most 280 code points is not truncated: the shaped
    tweet is the text with every run of three or more newlines replaced by
    two. *)
Theorem C6_short_text_only_normalized (s : str) :
  length s <= 280 -> shape_tweet s = normalize_blank_lines s.
Proof.
  intros Hlen. unfold shape_tweet. rewrite hard_limit_within.
  - apply collapse_is_normalize.
  - pose proof (length_collapse s). unfold MAX_TWEET_LENGTH. lia.
Qed.

Lemma C6_short_text_only_normalized_witness :
  shape_tweet Demo.short_text = normalize_blank_lines Demo.short_text.
Proof.
  apply (C6_short_text_only_normalized Demo.short_text). vm_compute. lia.
Defined.

(** C7.  Collapsing blank lines twice is collapsing them once. *)
Theorem C7_collapse_idempotent (s : str) : collapse (collapse s) = collapse s.
Proof. apply collapse_fixed, collapse_no_triple. Qed.

(** C10.  The loop ends on every text: an iteration makes the text
    strictly shorter, so the loop exits, within [length s + 1] evaluations
    of its condition, with [collapse s]. *)
Theorem C10_collapse_loop_terminates (s : str) :
  (contains nl3 s = true -> length (replace nl3 nl2 s) < length s) /\
  (exists r, while_collapse s r) /\
  collapse_loop (S (length s)) s = Some (collapse s).
Proof.
  split; [apply length_replace_nl3_lt|]. split.
  - exists (collapse s). apply collapse_spec.
  - unfold collapse.
    destruct (collapse_loop_enough (S (length s)) s) as [r Hr]; [lia|].
    now rewrite Hr.
Qed.

Lemma C10_collapse_loop_terminates_witness :
  length (replace nl3 nl2 Demo.gap_text) < length Demo.gap_text.
Proof.
  apply (proj1 (C10_collapse_loop_terminates Demo.gap_text)).
  vm_compute. reflexivity.
Defined.

(** ** The generation step *)

Section Paraphrase.
Context (w : World).

Lemma single_paraphrase_result (text r : str) (st st' : state) :
  Single.paraphrase_for_tweet w text st = (Return r, st') ->
  r = [] \/ exists t, r = shape_tweet (strip t).
Proof.
  unfold Single.paraphrase_for_tweet, response_text_strip. intros H.
  inv_run; eauto.
Qed.

Lemma dual_paraphrase_tweet_result (text r : str) (st st' : state) :
  Dual.paraphrase_for_tweet w text st = (Return r, st') ->
  r = [] \/ exists t, r = shape_tweet (strip t).
Proof.
  unfold Dual.paraphrase_for_tweet, response_text_strip. intros H.
  inv_run; eauto.
Qed.

Lemma dual_paraphrase_linkedin_result (text r : str) (st st' : state) :
  Dual.paraphrase_for_linkedin w text st = (Return r, st') ->
  r = [] \/ exists t, r = shape_linkedin (strip t).
Proof.
  unfold Dual.paraphrase_for_linkedin, response_text_strip. intros H.
  inv_run; eauto.
Qed.

Lemma length_shape_tweet (s : str) : length (shape_tweet s) <= 280.
Proof. apply (length_hard_limit MAX_TWEET_LENGTH). unfold MAX_TWEET_LENGTH. lia. Qed.

Lemma length_shape_linkedin (s : str) : length (shape_linkedin s) <= 3000.
Proof.
  apply (length_hard_limit MAX_LINKEDIN_LENGTH). unfold MAX_LINKEDIN_LENGTH. lia.
Qed.

(** Without the key of the generation service, a non-empty text makes
    [paraphrase_for_tweet] raise: [_get_env_var] is called outside the
    [try]. *)
Lemma single_paraphrase_without_key (text : str) (st : state) :
  text <> [] ->
  getenv w "GEMINI_API_KEY" = None ->
  Single.paraphrase_for_tweet w text st =
  (Raise (EnvironmentError "Missing required environment variable: GEMINI_API_KEY"), st).
Proof.
  intros Ht Hk. apply is_empty_cons in Ht.
  unfold Single.paraphrase_for_tweet. rewrite Ht, bind_run.
  unfold _get_env_var. now rewrite Hk.
Qed.

(** A failing call of the generation service is swallowed. *)
Lemma single_paraphrase_service_error (text key : str) (st : state) (e : exn) :
  text <> [] -> key <> [] ->
  getenv w "GEMINI_API_KEY" = Some key ->
  generate_content w (Single.prompt text) = GenRaise e ->
  is_Exception e = true ->
  (Single.paraphrase_for_tweet w text st).1 = Return [].
Proof.
  intros Ht Hn Hk Hg He. apply is_empty_cons in Ht.
  unfold Single.paraphrase_for_tweet. rewrite Ht, bind_run.
  unfold _get_env_var. rewrite Hk. destruct key as [|c key]; [easy|].
  cbn [ret]. rewrite bind_run. unfold try_except. rewrite bind_run.
  unfold models_generate_content. rewrite bind_run. cbn [emit]. rewrite Hg.
  cbn [raise]. rewrite He. reflexivity.
Qed.

(** When the key is there and the service answers with a text, the
    paraphrasers return that text stripped and shaped. *)
Lemma single_paraphrase_answer (text key t : str) (st : state) :
  text <> [] -> key <> [] ->
  getenv w "GEMINI_API_KEY" = Some key ->
  generate_content w (Single.prompt text) = GenResponse (Some t) ->
  (Single.paraphrase_for_tweet w text st).1 = Return (shape_tweet (strip t)).
Proof.
  intros Ht Hn Hk Hg. apply is_empty_cons in Ht.
  unfold Single.paraphrase_for_tweet. rewrite Ht, bind_run.
  unfold _get_env_var. rewrite Hk. destruct key as [|c key]; [easy|].
  cbn [ret]. rewrite bind_run. unfold try_except. rewrite bind_run.
  unfold models_generate_content. rewrite bind_run. cbn [emit]. now rewrite Hg.
Qed.

Lemma dual_paraphrase_tweet_answer (text key t : str) (st : state) :
  text <> [] -> key <> [] ->
  getenv w "GEMINI_API_KEY" = Some key ->
  generate_content w (Dual.tweet_prompt text) = GenResponse (Some t) ->
  (Dual.paraphrase_for_tweet w text st).1 = Return (shape_tweet (strip t)).
Proof.
  intros Ht Hn Hk Hg. apply is_empty_cons in Ht.
  unfold Dual.paraphrase_for_tweet. rewrite Ht, bind_run.
  unfold _get_env_var. rewrite Hk. destruct key as [|c key]; [easy|].
  cbn [ret]. rewrite bind_run. unfold try_except. rewrite bind_run.
  unfold models_generate_content. rewrite bind_run. cbn [emit]. now rewrite Hg.
Qed.

Lemma dual_paraphrase_linkedin_answer (text key t : str) (st : state) :
  text <> [] -> key <> [] ->
  getenv w "GEMINI_API_KEY" = Some key ->
  generate_content w (Dual.linkedin_prompt text) = GenResponse (Some t) ->
  (Dual.paraphrase_for_linkedin w text st).1 = Return (shape_linkedin (strip t)).
Proof.
  intros Ht Hn Hk Hg. apply is_empty_cons in Ht.
  unfold Dual.paraphrase_for_linkedin. rewrite Ht, bind_run.
  unfold _get_env_var. rewrite Hk. destruct key as [|c key]; [easy|].
  cbn [ret]. rewrite bind_run. unfold try_except. rewrite bind_run.
  unfold models_generate_content. rewrite bind_run. cbn [emit]. now rewrite Hg.
Qed.

Lemma paraphrase_text_answer (text key t : str) (st : state) :
  key <> [] ->
  getenv w "GEMINI_API_KEY" = Some key ->
  generate_content w (Legacy.prompt text) = GenResponse (Some t) ->
  (Legacy.paraphrase_text w text st).1 = Return (shape_text (strip t)).
Proof.
  intros Hn Hk Hg. unfold Legacy.paraphrase_text. rewrite Hk.
  destruct key as [|c key]; [easy|]. rewrite bind_run.
  unfold models_generate_content. rewrite bind_run. cbn [emit]. now rewrite Hg.
Qed.

End Paraphrase.

(** C2.  Whatever the shaping functions return is a string within the
    platform's limit: [truncate_tweet] and the tweet shaping stay within
    280 code points, the long-form shaping within 3000, and so does every
    value [paraphrase_for_tweet] and [paraphrase_for_linkedin] return.  The
    value returned is a string by its type: [None] is not among the values
    of [list N]. *)
Theorem C2_results_within_limits (w : World) (text : str) (st : state) :
  length (Shaper.truncate_tweet text) <= 280 /\
  (Single.truncate_tweet text st).1 = Return (Shaper.truncate_tweet text) /\
  length (shape_tweet text) <= 280 /\
  length (shape_linkedin text) <= 3000 /\
  (forall r st', Single.paraphrase_for_tweet w text st = (Return r, st') ->
     length r <= 280) /\
  (forall r st', Dual.paraphrase_for_tweet w text st = (Return r, st') ->
     length r <= 280) /\
  (forall r st', Dual.paraphrase_for_linkedin w text st = (Return r, st') ->
     length r <= 3000).
Proof.
  split; [apply length_truncate_tweet|].
  split; [apply single_truncate_run|].
  split; [apply length_shape_tweet|].
  split; [apply length_shape_linkedin|].
  split; [|split]; intros r st' H.
  - apply single_paraphrase_result in H as [->|[t ->]];
      [simpl; lia|apply length_shape_tweet].
  - apply dual_paraphrase_tweet_result in H as [->|[t ->]];
      [simpl; lia|apply length_shape_tweet].
  - apply dual_paraphrase_linkedin_result in H as [->|[t ->]];
      [simpl; lia|apply length_shape_linkedin].
Qed.

Lemma C2_results_within_limits_witness :
  length (shape_tweet (strip Demo.long_text)) <= 280.
Proof.
  apply (proj1 (proj2 (proj2 (proj2 (proj2
           (C2_results_within_limits
              (Demo.world Demo.gemini_key (Demo.answers Demo.long_text) Demo.posts_ok)
              Demo.notes (Demo.start Demo.notes))))))
         (shape_tweet (strip Demo.long_text))
         {| fs := fs (Demo.start Demo.notes); ticks := 0;
            trace := [GenerateContent (Single.prompt Demo.notes)] |}).
  vm_compute. reflexivity.
Defined.

(** C3, at the failing input.  With the posting credentials set and the
    key of the generation service missing, [paraphrase_for_tweet] does not
    return the empty string: the [EnvironmentError] of [_get_env_var]
    leaves it, and leaves [generate_learning_update] and [main] with it.  A
    response without text leaves it with an [AttributeError]. *)
Theorem C3_missing_credential_propagates :
  Single.paraphrase_for_tweet
    (Demo.world Demo.x_keys (Demo.answers Demo.short_text) Demo.posts_ok)
    Demo.notes (Demo.start Demo.notes)
  = (Raise (EnvironmentError "Missing required environment variable: GEMINI_API_KEY"),
     Demo.start Demo.notes) /\
  Dual.paraphrase_for_tweet
    (Demo.world Demo.x_keys (Demo.answers Demo.short_text) Demo.posts_ok)
    Demo.notes (Demo.start Demo.notes)
  = (Raise (EnvironmentError "Missing required environment variable: GEMINI_API_KEY"),
     Demo.start Demo.notes) /\
  (Single.main
     (Demo.world Demo.x_keys (Demo.answers Demo.short_text) Demo.posts_ok)
     (Demo.start Demo.notes)).1
  = Raise (EnvironmentError "Missing required environment variable: GEMINI_API_KEY") /\
  (Single.paraphrase_for_tweet
     (Demo.world Demo.gemini_key (fun _ => GenResponse None) Demo.posts_ok)
     Demo.notes (Demo.start Demo.notes)).1
  = Raise (AttributeError "'NoneType' object has no attribute 'strip'").
Proof. repeat split; vm_compute; reflexivity. Qed.

(** C8.  The empty string is shaped to the empty string, and on the empty
    string the paraphrasers return it at once: the state, and with it the
    list of events, is as before, so no request went out. *)
Theorem C8_empty_input (w : World) (st : state) :
  shape_tweet [] = [] /\
  Shaper.truncate_tweet [] = [] /\
  Single.paraphrase_for_tweet w [] st = (Return [], st) /\
  Dual.paraphrase_for_tweet w [] st = (Return [], st) /\
  Dual.paraphrase_for_linkedin w [] st = (Return [], st).
Proof. repeat split. Qed.

(** ** The two [main]s *)

Section MainClaims.
Context (w : World).

Lemma single_main_empty_tweet (st st1 : state) (t : str) :
  (tweepy_Client w st).1 = Return tt ->
  Single.generate_learning_update w st = (Return t, st1) ->
  Shaper.truncate_tweet t = [] ->
  (Single.main w st).1 = Return 4%Z.
Proof.
  intros Hc Hg He. destruct (single_main_ready w st st1 t Hc Hg) as (st2 & _ & ->).
  cbv zeta. now rewrite He.
Qed.


Lemma single_main_post_error (st st1 : state) (t : str) (e : exn) :
  (tweepy_Client w st).1 = Return tt ->
  Single.generate_learning_update w st = (Return t, st1) ->
  Shaper.truncate_tweet t <> [] ->
  dry_run_flag w = false ->
  create_tweet w (Shaper.truncate_tweet t) = PostRaise e ->
  is_Exception e = true ->
  (Single.main w st).1 = Return (if is_TweepyException e then 5%Z else 6%Z).
Proof.
  intros Hc Hg Ht Hd Hp He. apply is_empty_cons in Ht.
  destruct (single_main_ready w st st1 t Hc Hg) as (st2 & _ & ->).
  cbv zeta. rewrite Ht, Hd, bind_run. unfold try_except. rewrite bind_run.
  unfold client_create_tweet. rewrite bind_run. cbn [emit]. rewrite Hp. cbn [raise].
  destruct (is_TweepyException e); [reflexivity|]. now rewrite He.
Qed.

End MainClaims.

(** C4 (as amended).  An empty truncated tweet, the empty input file
    included, ends [main] with 4: always in the two-platform variant, and in
    the single-platform variant once the posting client is there (without
    it [main] has ended with 2 or 3 before it reads the file).  In the
    two-platform variant an empty long-form post beside a tweet ends [main]
    with 5, the value 6 is returned only after the posting call raised a
    [TweepyException] and 7 only after it raised another [Exception].  In
    the single-platform variant a posting call that raises a
    [TweepyException] ends [main] with 5 and one that raises another
    [Exception] with 6; it returns 5 and 6 in these cases only, and never
    7. *)
Theorem C4_exit_codes (w : World) (st : state) :
  (forall p st1,
     Dual.generate_learning_update w st = (Return p, st1) ->
     Dual.truncate_tweet p.1 = [] ->
     (Dual.main w st).1 = Return 4%Z) /\
  (forall contents,
     fs st !! "input.txt" = Some contents -> read_error w "input.txt" = None ->
     strip contents = [] ->
     (Dual.main w st).1 = Return 4%Z) /\
  (forall p st1,
     Dual.generate_learning_update w st = (Return p, st1) ->
     Dual.truncate_tweet p.1 <> [] -> p.2 = [] ->
     (Dual.main w st).1 = Return 5%Z) /\
  (forall st',
     Dual.main w st = (Return 6%Z, st') ->
     exists t e, create_tweet w t = PostRaise e /\ is_TweepyException e = true) /\
  (forall st',
     Dual.main w st = (Return 7%Z, st') ->
     exists t e, create_tweet w t = PostRaise e /\ is_TweepyException e = false
                 /\ is_Exception e = true) /\
  ((tweepy_Client w st).1 = Return tt ->
   (forall t st1,
      Single.generate_learning_update w st = (Return t, st1) ->
      Shaper.truncate_tweet t = [] ->
      (Single.main w st).1 = Return 4%Z) /\
   (forall contents,
      fs st !! "text.txt" = Some contents -> read_error w "text.txt" = None ->
      strip contents = [] ->
      (Single.main w st).1 = Return 4%Z) /\
   (forall t st1 e,
      Single.generate_learning_update w st = (Return t, st1) ->
      Shaper.truncate_tweet t <> [] -> dry_run_flag w = false ->
      create_tweet w (Shaper.truncate_tweet t) = PostRaise e ->
      is_Exception e = true ->
      (Single.main w st).1 = Return (if is_TweepyException e then 5%Z else 6%Z))) /\
  (forall st',
     Single.main w st = (Return 5%Z, st') ->
     exists t e, create_tweet w t = PostRaise e /\ is_TweepyException e = true) /\
  (forall st',
     Single.main w st = (Return 6%Z, st') ->
     exists t e, create_tweet w t = PostRaise e /\ is_TweepyException e = false
                 /\ is_Exception e = true) /\
  (forall st', Single.main w st <> (Return 7%Z, st')).
Proof.
  split.
  { intros p st1 Hg He. now rewrite (dual_main_empty_tweet w st st1 p Hg He). }
  split.
  { intros c Hf Hr Hs.
    now rewrite (dual_main_empty_tweet w st _ _
                   (dual_generate_empty_file w st c Hf Hr Hs) eq_refl). }
  split.
  { intros p st1 Hg Ht He. now rewrite (dual_main_empty_post w st st1 p Hg Ht He). }
  split.
  { intros st' H. apply dual_codes in H.
    destruct H as [H|[H|[H|[H|[H|[[_ H]|[H _]]]]]]]; try discriminate H. exact H. }
  split.
  { intros st' H. apply dual_codes in H.
    destruct H as [H|[H|[H|[H|[H|[[H _]|[_ H]]]]]]]; try discriminate H. exact H. }
  split.
  { intros Hc. split; [|split].
    - intros t st1. now apply single_main_empty_tweet.
    - intros c Hf Hr Hs.
      now apply (single_main_empty_tweet w st _ []
                   Hc (single_generate_empty_file w st c Hf Hr Hs)).
    - intros t st1 e. now apply single_main_post_error. }
  split.
  { intros st' H. apply single_codes in H.
    destruct H as [H|[H|[H|[H|[[_ H]|[H _]]]]]]; try discriminate H. exact H. }
  split.
  { intros st' H. apply single_codes in H.
    destruct H as [H|[H|[H|[H|[[H _]|[_ H]]]]]]; try discriminate H. exact H. }
  intros st' H. apply single_codes in H.
  destruct H as [H|[H|[H|[H|[[H _]|[H _]]]]]]; discriminate H.
Qed.

Lemma C4_exit_codes_witness :
  (Dual.main (Demo.world [] (Demo.answers Demo.short_text) Demo.posts_ok)
     (Demo.start (lit "  "))).1 = Return 4%Z.
Proof.
  apply (proj1 (proj2 (C4_exit_codes
                         (Demo.world [] (Demo.answers Demo.short_text) Demo.posts_ok)
                         (Demo.start (lit "  "))))
           (lit "  "));
    vm_compute; reflexivity.
Defined.

(** C4 as stated fails: in the two-platform variant the posting call
    raising a [TweepyException], the known error of the posting API, ends
    [main] with 6; and in the single-platform variant an empty input file
    ends [main] with 2 when a posting credential is missing. *)
Lemma C4_counterexample :
  (Dual.main
     (Demo.world (Demo.x_keys ++ Demo.gemini_key) (Demo.answers Demo.short_text)
        (Demo.posts_fail (TweepyException "403 Forbidden")))
     (Demo.start Demo.notes)).1 = Return 6%Z /\
  is_TweepyException (TweepyException "403 Forbidden") = true /\
  (Single.main
     (Demo.world Demo.gemini_key (Demo.answers Demo.short_text) Demo.posts_ok)
     (Demo.start [])).1 = Return 2%Z.
Proof. repeat split; vm_compute; reflexivity. Qed.




(** C9.  Every posting call in a run of the two-platform [main] that was
    not among the events before it carries the truncated tweet, the first
    component of what [generate_learning_update] returned; the long-form
    post, the second component, is printed and written to the output file
    only. *)
Theorem C9_only_the_tweet_is_posted (w : World) (st : state) (t : str) :
  In (CreateTweet t) (trace (Dual.main w st).2) ->
  In (CreateTweet t) (trace st) \/
  exists p st1,
    Dual.generate_learning_update w st = (Return p, st1) /\
    t = Dual.truncate_tweet p.1.
Proof.
  intros Hin. pose proof (dual_main_posts w st) as Hm.
  pose proof (dual_generate_grows w st) as (_ & _ & Hg).
  destruct (Dual.generate_learning_update w st) as [[p|e] st1] eqn:Hgen;
    cbn [snd] in Hg.
  - destruct (extends_In _ _ _ _ Hm Hin) as [Hin1|Hp].
    + destruct (extends_In _ _ _ _ Hg Hin1) as [Hin0|[]]. now left.
    + right. exists p, st1. split; [reflexivity|exact Hp].
  - rewrite Hm in Hin.
    destruct (extends_In _ _ _ _ Hg Hin) as [Hin0|[]]. now left.
Qed.

Lemma C9_only_the_tweet_is_posted_witness :
  In (CreateTweet (lit "Day 5" ++ [nl; nl] ++ lit "recursion #100DaysOfCode"))
     (trace (Demo.start Demo.notes)) \/
  exists p st1,
    Dual.generate_learning_update
      (Demo.world (Demo.x_keys ++ Demo.gemini_key)
         (Demo.answers Demo.short_text) Demo.posts_ok)
      (Demo.start Demo.notes) = (Return p, st1) /\
    lit "Day 5" ++ [nl; nl] ++ lit "recursion #100DaysOfCode" = Dual.truncate_tweet p.1.
Proof.
  apply (C9_only_the_tweet_is_posted
           (Demo.world (Demo.x_keys ++ Demo.gemini_key)
              (Demo.answers Demo.short_text) Demo.posts_ok)
           (Demo.start Demo.notes)).
  vm_compute. do 9 right. left. reflexivity.
Defined.

(** * Further properties of the code *)

(** ** The shaper *)

Section ShapeInvariants.

Lemma is_prefix_app (p a b : str) :
  is_prefix p a = true -> is_prefix p (a ++ b) = true.
Proof.
  revert a. induction p as [|x p IH]; intros [|y a]; cbn [is_prefix app]; try easy.
  intros H. apply andb_prop in H as [-> H]. now rewrite IH.
Qed.

Lemma contains_app_l (sub a b : str) :
  contains sub (a ++ b) = false -> contains sub a = false.
Proof.
  induction a as [|c a IH].
  - destruct sub as [|x sub]; [|reflexivity].
    destruct b; cbn; discriminate.
  - cbn [app]. rewrite !contains_cons. intros H.
    apply orb_false_elim in H as [Hp Hc]. rewrite (IH Hc), orb_false_r.
    destruct (is_prefix sub (c :: a)) eqn:E; [|reflexivity].
    pose proof (is_prefix_app _ (c :: a) b E) as E'. cbn [app] in E'. congruence.
Qed.

Lemma contains_nl3_take (n : nat) (s : str) :
  contains nl3 s = false -> contains nl3 (take n s) = false.
Proof.
  intros H. rewrite <- (take_drop n s) in H. now apply contains_app_l in H.
Qed.

Lemma contains_nl3_snoc (a : str) (e : N) :
  e <> nl -> contains nl3 a = false -> contains nl3 (a ++ [e]) = false.
Proof.
  intros He. induction a as [|c a IH]; intros H.
  - unfold nl3. cbn [app contains is_prefix]. now rewrite !andb_false_r.
  - cbn [app]. rewrite contains_cons in H |- *.
    apply orb_false_elim in H as [Hp Hc]. rewrite (IH Hc), orb_false_r.
    destruct (is_prefix nl3 (c :: a ++ [e])) eqn:E; [|reflexivity].
    apply is_prefix_nl3 in E as [rest E].
    destruct a as [|x [|y a]]; cbn [app] in E.
    + discriminate E.
    + injection E as _ _ E. congruence.
    + injection E as -> -> -> _. revert Hp. unfold nl3. cbn [is_prefix].
      rewrite !N.eqb_refl. discriminate.
Qed.

Lemma hard_limit_no_triple (limit : nat) (s : str) :
  contains nl3 s = false -> contains nl3 (hard_limit limit s) = false.
Proof.
  intros H. unfold hard_limit. destruct (limit <? length s); [|exact H].
  change ellipsis with [8230%N]. apply contains_nl3_snoc; [discriminate|].
  now apply contains_nl3_take.
Qed.

Lemma shape_tweet_no_triple (s : str) : contains nl3 (shape_tweet s) = false.
Proof. apply hard_limit_no_triple, collapse_no_triple. Qed.

Lemma shape_tweet_fixed (s : str) :
  contains nl3 s = false -> length s <= 280 -> shape_tweet s = s.
Proof.
  intros Hc Hl. unfold shape_tweet. rewrite (collapse_fixed s Hc).
  now apply hard_limit_within.
Qed.

Lemma truncate_tweet_within (s : str) :
  length s <= 280 -> Shaper.truncate_tweet s = s.
Proof.
  intros Hl. unfold Shaper.truncate_tweet. destruct s as [|c s]; [reflexivity|].
  cbn [is_empty]. destruct (Nat.leb_spec (length (c :: s)) MAX_TWEET_LENGTH) as [_|H];
    [reflexivity|]. unfold MAX_TWEET_LENGTH in H. lia.
Qed.

End ShapeInvariants.

(** X1.  A shaped tweet holds no run of three newlines and at most 280 code
    points; shaping it again, or passing it through [truncate_tweet] as
    [main] does, changes nothing. *)
Theorem X1_shaped_tweet_is_stable (s : str) :
  contains nl3 (shape_tweet s) = false /\
  length (shape_tweet s) <= 280 /\
  shape_tweet (shape_tweet s) = shape_tweet s /\
  Shaper.truncate_tweet (shape_tweet s) = shape_tweet s.
Proof.
  pose proof (shape_tweet_no_triple s) as Hc.
  pose proof (length_shape_tweet s) as Hl.
  split; [exact Hc|]. split; [exact Hl|]. split.
  - now apply shape_tweet_fixed.
  - now apply truncate_tweet_within.
Qed.

(** X2.  The tweet shaping returns its input unchanged exactly when the
    input holds no run of three newlines and at most 280 code points. *)
Theorem X2_shape_tweet_pass_through (s : str) :
  shape_tweet s = s <-> contains nl3 s = false /\ length s <= 280.
Proof.
  split.
  - intros E. rewrite <- E. split; [apply shape_tweet_no_triple|apply length_shape_tweet].
  - intros [Hc Hl]. now apply shape_tweet_fixed.
Qed.

Section CollapseKeeps.

Lemma cap_newlines_sublist (s : str) : forall k, sublist (cap_newlines k s) s.
Proof.
  induction s as [|c s IH]; intros k; [constructor|].
  cbn [cap_newlines]. destruct (c =? nl)%N.
  - destruct (k <? 2); [apply sublist_skip|apply sublist_cons]; apply IH.
  - apply sublist_skip, IH.
Qed.

Lemma cap_newlines_visible (s : str) :
  forall k, List.filter visible (cap_newlines k s) = List.filter visible s.
Proof.
  induction s as [|c s IH]; intros k; [reflexivity|].
  cbn [cap_newlines List.filter]. unfold visible at 2.
  destruct (c =? nl)%N eqn:E; cbn [negb].
  - destruct (k <? 2); [|apply IH].
    cbn [List.filter]. unfold visible at 1. rewrite E. cbn [negb]. apply IH.
  - cbn [List.filter]. unfold visible at 1. rewrite E. cbn [negb]. now rewrite IH.
Qed.

End CollapseKeeps.

(** X3.  Collapsing blank lines only takes newlines away: the result is
    the text with some code points left out, it is no longer than the
    text, and the code points other than newlines are all there, in their
    order. *)
Theorem X3_collapse_only_drops_newlines (s : str) :
  sublist (collapse s) s /\
  length (collapse s) <= length s /\
  List.filter visible (collapse s) = List.filter visible s.
Proof.
  rewrite collapse_is_cap. split; [apply cap_newlines_sublist|].
  split; [apply sublist_length, cap_newlines_sublist|apply cap_newlines_visible].
Qed.

Section PrefixKept.

Lemma cap_newlines_visible_prefix (p rest : str) :
  forallb visible p = true ->
  forall k, cap_newlines k (p ++ rest) =
            p ++ cap_newlines (match p with [] => k | _ => 0 end) rest.
Proof.
  induction p as [|c p IH]; intros Hp k; [reflexivity|].
  cbn [forallb] in Hp. apply andb_prop in Hp as [Hc Hp].
  unfold visible in Hc. apply negb_true_iff in Hc.
  cbn [app cap_newlines]. rewrite Hc, (IH Hp 0). now destruct p.
Qed.

Lemma shape_tweet_keeps_prefix (p rest : str) :
  forallb visible p = true ->
  length p <= 279 ->
  exists tail, shape_tweet (p ++ rest) = p ++ tail.
Proof.
  intros Hv Hl. unfold shape_tweet. rewrite collapse_is_cap.
  rewrite (cap_newlines_visible_prefix p rest Hv 0).
  set (r := cap_newlines _ rest). unfold hard_limit.
  destruct (MAX_TWEET_LENGTH <? length (p ++ r)); [|now exists r].
  unfold MAX_TWEET_LENGTH. cbn [Nat.sub].
  rewrite take_app, (take_ge p) by lia. rewrite <- app_assoc. eauto.
Qed.

Lemma length_lstrip (s : str) : length (lstrip s) <= length s.
Proof.
  induction s as [|c s IH]; [reflexivity|]. cbn [lstrip].
  destruct (is_space c); cbn [length]; lia.
Qed.

Lemma length_rstrip (s : str) : length (rstrip s) <= length s.
Proof.
  induction s as [|c s IH]; [reflexivity|]. cbn [rstrip].
  destruct (rstrip s) as [|d r]; [destruct (is_space c)|]; cbn [length] in *; lia.
Qed.

(** A text that [rstrip] leaves as it is stays when more text follows. *)
Lemma rstrip_keeps (p : str) :
  p <> [] -> rstrip p = p ->
  forall rest, exists tail, rstrip (p ++ rest) = p ++ tail.
Proof.
  induction p as [|c p IH]; [easy|]. intros _ H rest.
  cbn [rstrip] in H. destruct p as [|d p].
  - cbn [rstrip] in H. destruct (is_space c) eqn:Hc; [discriminate H|].
    cbn [app rstrip]. rewrite Hc. destruct (rstrip rest) as [|x r]; eauto.
  - destruct (rstrip (d :: p)) as [|x r] eqn:E.
    + destruct (is_space c); discriminate H.
    + assert (H' : x :: r = d :: p) by congruence.
      destruct (IH ltac:(easy) H' rest) as [tail Ht].
      exists tail. change ((c :: d :: p) ++ rest) with (c :: ((d :: p) ++ rest)).
      cbn [rstrip]. rewrite Ht. reflexivity.
Qed.

(** A text without white space at either end is kept by [strip] when more
    text follows it. *)
Lemma strip_keeps (p rest : str) :
  strip p = p -> exists tail, strip (p ++ rest) = p ++ tail.
Proof.
  intros H. destruct p as [|c p]; [now exists (strip rest)|].
  unfold strip in *. cbn [lstrip app] in *.
  destruct (is_space c).
  - exfalso. pose proof (length_rstrip (lstrip p)) as H1.
    pose proof (length_lstrip p) as H2. rewrite H in H1. cbn [length] in H1. lia.
  - exact (rstrip_keeps (c :: p) ltac:(easy) H rest).
Qed.

End PrefixKept.

(** X4.  When the text the generation service answers with begins with a
    stretch of at most 279 code points that holds no newline and has no
    white space at either end, such as [Day 5], the tweet
    [paraphrase_for_tweet] returns begins with the same stretch: it is lost
    neither to the [strip], nor to the blank-line loop, nor to the
    truncation. *)
Theorem X4_leading_text_survives (w : World) (text key p rest : str) (st : state) :
  text <> [] -> key <> [] ->
  getenv w "GEMINI_API_KEY" = Some key ->
  strip p = p ->
  forallb visible p = true ->
  length p <= 279 ->
  (generate_content w (Single.prompt text) = GenResponse (Some (p ++ rest)) ->
   exists tail, (Single.paraphrase_for_tweet w text st).1 = Return (p ++ tail)) /\
  (generate_content w (Dual.tweet_prompt text) = GenResponse (Some (p ++ rest)) ->
   exists tail, (Dual.paraphrase_for_tweet w text st).1 = Return (p ++ tail)).
Proof.
  intros Ht Hk Hkey Hs Hv Hl.
  destruct (strip_keeps p rest Hs) as [r Hr].
  destruct (shape_tweet_keeps_prefix p r Hv Hl) as [tail Htail].
  split; intros Hg; exists tail.
  - rewrite (single_paraphrase_answer w text key (p ++ rest) st Ht Hk Hkey Hg).
    now rewrite Hr, Htail.
  - rewrite (dual_paraphrase_tweet_answer w text key (p ++ rest) st Ht Hk Hkey Hg).
    now rewrite Hr, Htail.
Qed.

Lemma X4_leading_text_survives_witness :
  exists tail,
    (Single.paraphrase_for_tweet
       (Demo.world Demo.gemini_key (Demo.answers (lit "Day 5" ++ Demo.gap_text))
          Demo.posts_ok)
       Demo.notes (Demo.start Demo.notes)).1 = Return (lit "Day 5" ++ tail).
Proof.
  refine (proj1 (X4_leading_text_survives
            (Demo.world Demo.gemini_key (Demo.answers (lit "Day 5" ++ Demo.gap_text))
               Demo.posts_ok)
            Demo.notes (lit "gk") (lit "Day 5") Demo.gap_text (Demo.start Demo.notes)
            _ _ _ _ _ _) _).
  - vm_compute. discriminate.
  - vm_compute. discriminate.
  - vm_compute. reflexivity.
  - vm_compute. reflexivity.
  - vm_compute. reflexivity.
  - vm_compute. lia.
  - reflexivity.
Defined.

Section ShapeText.

Lemma replace_nl_space_no_newline (s : str) : ~ In nl (replace [nl] [space] s).
Proof.
  induction s as [|c s IH]; [easy|]. rewrite replace_nl_space_cons.
  intros [H|H]; [|now apply IH].
  destruct (N.eqb_spec c nl) as [->|Hc]; [discriminate H|congruence].
Qed.

Lemma In_take {A} (x : A) (n : nat) (l : list A) : In x (take n l) -> In x l.
Proof.
  intros H. rewrite <- (take_drop n l). apply in_or_app. now left.
Qed.

End ShapeText.

(** X5.  What [paraphrase_text] makes of a response is one line of at most
    280 code points: no newline is left in it, whatever the response
    held. *)
Theorem X5_shape_text_one_line (s : str) :
  length (shape_text s) <= 280 /\ ~ In nl (shape_text s).
Proof.
  unfold shape_text. cbv zeta.
  destruct (Nat.ltb_spec 280 (length (replace [nl] [space] s))) as [Hlt|Hge].
  - split.
    + rewrite length_app, length_take. change (length (lit "...")) with 3. lia.
    + intros H. apply in_app_or in H as [H|H].
      * apply In_take in H. now apply replace_nl_space_no_newline in H.
      * vm_compute in H. intuition discriminate.
  - split; [lia|apply replace_nl_space_no_newline].
Qed.

(** ** The posting client *)

Section Client.
Context (w : World).

Lemma get_env_var_set (name : string) (st : state) :
  is_set w name = true ->
  exists v, _get_env_var w name st = (Return v, st).
Proof.
  unfold is_set, _get_env_var. destruct (getenv w name) as [[|c v]|]; try discriminate.
  eauto.
Qed.

Lemma get_env_var_unset (name : string) (st : state) :
  is_set w name = false ->
  _get_env_var w name st =
  (Raise (EnvironmentError ("Missing required environment variable: " +:+ name)), st).
Proof.
  unfold is_set, _get_env_var. now destruct (getenv w name) as [[|c v]|].
Qed.

(** What [tweepy.Client(...)] comes to. *)
Lemma tweepy_Client_run (st : state) :
  tweepy_Client w st =
  match first_missing w with
  | Some name =>
    (Raise (EnvironmentError ("Missing required environment variable: " +:+ name)), st)
  | None =>
    match client_init w with
    | Some e => (Raise e, st)
    | None => (Return tt, st)
    end
  end.
Proof.
  unfold tweepy_Client, first_missing, credentials. cbn [List.find].
  rewrite bind_run.
  destruct (is_set w "X_API_KEY") eqn:E1; cbn [negb];
    [destruct (get_env_var_set "X_API_KEY" st E1) as [? ->]
    |now rewrite (get_env_var_unset "X_API_KEY" st E1)].
  rewrite bind_run.
  destruct (is_set w "X_API_SECRET") eqn:E2; cbn [negb];
    [destruct (get_env_var_set "X_API_SECRET" st E2) as [? ->]
    |now rewrite (get_env_var_unset "X_API_SECRET" st E2)].
  rewrite bind_run.
  destruct (is_set w "X_ACCESS_TOKEN") eqn:E3; cbn [negb];
    [destruct (get_env_var_set "X_ACCESS_TOKEN" st E3) as [? ->]
    |now rewrite (get_env_var_unset "X_ACCESS_TOKEN" st E3)].
  rewrite bind_run.
  destruct (is_set w "X_ACCESS_SECRET") eqn:E4; cbn [negb];
    [destruct (get_env_var_set "X_ACCESS_SECRET" st E4) as [? ->]
    |now rewrite (get_env_var_unset "X_ACCESS_SECRET" st E4)].
  now destruct (client_init w).
Qed.

End Client.

(** X6.  When one of the four posting credentials is unset or empty, the
    single-platform [main] ends with 2 at once: the only thing it has done
    is to log the name of the first such credential; no file was read, no
    request made, nothing posted. *)
Theorem X6_single_main_missing_credential (w : World) (st : state) (name : string) :
  first_missing w = Some name ->
  Single.main w st =
  (Return 2%Z,
   with_event st (Log ERROR ("Missing required environment variable: " +:+ name))).
Proof.
  intros H. unfold Single.main. cbv zeta. rewrite bind_run.
  unfold try_except. rewrite bind_run, tweepy_Client_run, H. reflexivity.
Qed.

Lemma X6_single_main_missing_credential_witness :
  Single.main
    (Demo.world (Demo.gemini_key ++ [("X_API_KEY", lit "ck"); ("X_API_SECRET", [])])
       (Demo.answers Demo.short_text) Demo.posts_ok)
    (Demo.start Demo.notes) =
  (Return 2%Z,
   with_event (Demo.start Demo.notes)
     (Log ERROR "Missing required environment variable: X_API_SECRET")).
Proof.
  apply (X6_single_main_missing_credential
           (Demo.world (Demo.gemini_key ++ [("X_API_KEY", lit "ck"); ("X_API_SECRET", [])])
              (Demo.answers Demo.short_text) Demo.posts_ok)
           (Demo.start Demo.notes) "X_API_SECRET").
  vm_compute. reflexivity.
Defined.

(** X7.  When the credentials are set and the constructor of the posting
    client raises, the single-platform [main] ends at once, with 3, or with
    2 if what was raised is an [OSError] (which [except EnvironmentError]
    catches first), after one log record and nothing else. *)
Theorem X7_single_main_client_failure (w : World) (st : state) (e : exn) :
  first_missing w = None ->
  client_init w = Some e ->
  is_Exception e = true ->
  Single.main w st =
  if is_EnvironmentError e
  then (Return 2%Z, with_event st (Log ERROR (exn_msg e)))
  else (Return 3%Z, with_event st (Log ERROR "Failed to initialize X client")).
Proof.
  intros Hm Hc He. unfold Single.main. cbv zeta. rewrite bind_run.
  unfold try_except. rewrite bind_run, tweepy_Client_run, Hm, Hc.
  unfold client_handlers. destruct (is_EnvironmentError e); [reflexivity|].
  rewrite He. reflexivity.
Qed.

Lemma X7_single_main_client_failure_witness :
  (Single.main
     {| environ := Demo.env_of Demo.x_keys; arg_yes := true; arg_output := "output.txt";
        read_error := fun _ => None; append_error := fun _ => None;
        write_error := fun _ => None;
        generate_content := Demo.answers Demo.short_text;
        client_init := Some (OtherException "bad token");
        create_tweet := Demo.posts_ok; stdin := InputLine (lit "y");
        utcnow_isoformat := fun _ => [] |}
     (Demo.start Demo.notes)).1 = Return 3%Z.
Proof.
  rewrite (X7_single_main_client_failure _ _ (OtherException "bad token"));
    vm_compute; reflexivity.
Defined.

(** ** The generation step, from the file to the requests *)

Section Reading.
Context (w : World).

Lemma lstrip_blank (s : str) : is_blank s = true -> lstrip s = [].
Proof.
  induction s as [|c s IH]; [reflexivity|]. unfold is_blank. cbn [forallb lstrip].
  intros H. apply andb_prop in H as [-> H]. now apply IH.
Qed.

Lemma strip_blank (s : str) : is_blank s = true -> strip s = [].
Proof. intros H. unfold strip. now rewrite lstrip_blank. Qed.

(** What [read_text_from_file] comes to. *)
Lemma read_text_from_file_run (path : string) (st : state) :
  read_text_from_file w path st =
  match fs st !! path with
  | None => (Raise (FileNotFoundError (path +:+ " not found")), st)
  | Some contents =>
    match read_error w path with
    | Some e => (Raise e, st)
    | None => (Return (strip contents), st)
    end
  end.
Proof.
  unfold read_text_from_file. rewrite bind_run. cbn [get_fs].
  destruct (fs st !! path); [|reflexivity]. now destruct (read_error w path).
Qed.

Lemma single_generate_unusable (st : state) :
  no_usable_text w st "text.txt" ->
  exists m, Single.generate_learning_update w st = (Return [], with_event st (Log ERROR m)).
Proof.
  intros H. unfold Single.generate_learning_update. rewrite bind_run.
  unfold try_except. rewrite bind_run, read_text_from_file_run.
  destruct H as [->|[(c & e & -> & -> & He)|(c & -> & -> & Hb)]].
  - eexists. reflexivity.
  - rewrite He. eexists. reflexivity.
  - cbn [ret]. rewrite (strip_blank c Hb). eexists. reflexivity.
Qed.

Lemma dual_generate_unusable (st : state) :
  no_usable_text w st "input.txt" ->
  exists m, Dual.generate_learning_update w st
            = (Return ([], []), with_event st (Log ERROR m)).
Proof.
  intros H. unfold Dual.generate_learning_update. rewrite bind_run.
  unfold try_except. rewrite bind_run, read_text_from_file_run.
  destruct H as [->|[(c & e & -> & -> & He)|(c & -> & -> & Hb)]].
  - eexists. reflexivity.
  - rewrite He. eexists. reflexivity.
  - cbn [ret]. rewrite (strip_blank c Hb). eexists. reflexivity.
Qed.

End Reading.

(** X8.  When the input file is missing, cannot be read, or holds white
    space only, [generate_learning_update] returns the empty text (the
    empty pair in the two-platform variant) after one error record: no
    request goes out, whether or not the key of the generation service is
    set. *)
Theorem X8_nothing_to_paraphrase (w : World) (st : state) :
  (no_usable_text w st "text.txt" ->
   exists m, Single.generate_learning_update w st
             = (Return [], with_event st (Log ERROR m))) /\
  (no_usable_text w st "input.txt" ->
   exists m, Dual.generate_learning_update w st
             = (Return ([], []), with_event st (Log ERROR m))).
Proof. split; [apply single_generate_unusable|apply dual_generate_unusable]. Qed.

Lemma X8_nothing_to_paraphrase_witness :
  exists m,
    Dual.generate_learning_update
      (Demo.world [] (Demo.answers Demo.short_text) Demo.posts_ok)
      (Demo.start (lit "   ")) =
    (Return ([], []), with_event (Demo.start (lit "   ")) (Log ERROR m)).
Proof.
  apply (proj2 (X8_nothing_to_paraphrase
                  (Demo.world [] (Demo.answers Demo.short_text) Demo.posts_ok)
                  (Demo.start (lit "   ")))).
  right. right. exists (lit "   "). repeat split; vm_compute; reflexivity.
Defined.

Lemma get_fs_inv (st st' : state) (r : outcome (gmap string (list N))) :
  get_fs st = (r, st') -> r = Return (fs st) /\ st' = st.
Proof. now intros [= <- <-]. Qed.

Ltac inv_more :=
  match goal with
  | H : get_fs _ = (_, _) |- _ => apply get_fs_inv in H as [? ?]
  | |- _ => inv_step
  end.

Ltac inv_all := repeat (inv_more; subst; cbn [fs ticks trace] in *; try discriminate).

Lemma added_app (st st' : state) (new : list event) :
  trace st' = trace st ++ new -> added st st' = new.
Proof. intros E. unfold added. rewrite E. apply drop_app_length. Qed.

Ltac known :=
  repeat match goal with
         | H : _ = _ |- _ => progress rewrite H
         end.

Ltac by_trace :=
  erewrite added_app
    by (cbn [trace]; rewrite <- ?app_assoc;
        first [reflexivity | symmetry; apply app_nil_r]);
  unfold raw_text, has_key, is_set, getenv in *; cbn [app requests posts flat_map];
  known; cbn [goes_on]; known;
  repeat match goal with
         | H : (if ?b then _ else _) = None |- _ => destruct b; try discriminate H
         end;
  try reflexivity.

Section Requests.
Context (w : World).

(* The prompts are compared as they stand, not letter by letter. *)
Opaque Single.prompt Dual.tweet_prompt Dual.linkedin_prompt.

Lemma single_generate_requests (st : state) :
  requests (added st (Single.generate_learning_update w st).2) =
  match raw_text w st "text.txt" with
  | Some raw => if has_key w then [Single.prompt raw] else []
  | None => []
  end.
Proof.
  destruct (Single.generate_learning_update w st) as [r st'] eqn:H. cbn [snd].
  unfold Single.generate_learning_update, Single.paraphrase_for_tweet,
    read_text_from_file, models_generate_content, response_text_strip,
    _get_env_var in H.
  inv_all; by_trace.
Qed.

Lemma dual_generate_requests (st : state) :
  requests (added st (Dual.generate_learning_update w st).2) =
  match raw_text w st "input.txt" with
  | Some raw =>
    if has_key w then
      Dual.tweet_prompt raw ::
      (if goes_on (generate_content w (Dual.tweet_prompt raw))
       then [Dual.linkedin_prompt raw] else [])
    else []
  | None => []
  end.
Proof.
  destruct (Dual.generate_learning_update w st) as [r st'] eqn:H. cbn [snd].
  unfold Dual.generate_learning_update, Dual.paraphrase_for_tweet,
    Dual.paraphrase_for_linkedin,
    read_text_from_file, models_generate_content, response_text_strip,
    _get_env_var in H.
  inv_all; by_trace.
Qed.

Lemma single_generate_result (st st1 : state) (t : str) :
  Single.generate_learning_update w st = (Return t, st1) ->
  t = [] \/ exists x, t = shape_tweet (strip x).
Proof.
  unfold Single.generate_learning_update, Single.paraphrase_for_tweet,
    response_text_strip. intros H. inv_all; eauto.
Qed.

Lemma dual_generate_result (st st1 : state) (p : list N * list N) :
  Dual.generate_learning_update w st = (Return p, st1) ->
  (p.1 = [] \/ exists x, p.1 = shape_tweet (strip x)) /\
  (p.2 = [] \/ exists x, p.2 = shape_linkedin (strip x)).
Proof.
  unfold Dual.generate_learning_update, Dual.paraphrase_for_tweet,
    Dual.paraphrase_for_linkedin, response_text_strip. intros H.
  inv_all; cbn [fst snd]; split; eauto.
Qed.

Transparent Single.prompt Dual.tweet_prompt Dual.linkedin_prompt.

End Requests.

(** X9.  The requests [generate_learning_update] makes are read off the
    input file and the environment: none unless the file holds text and
    the key of the generation service is set; then one in the
    single-platform variant, and in the two-platform variant the request
    for the tweet, followed by the request for the long-form post unless
    the first left [paraphrase_for_tweet] with an exception.  Each prompt is
    the template around the stripped text of the file. *)
Theorem X9_requests_of_generation (w : World) (st : state) :
  requests (added st (Single.generate_learning_update w st).2) =
    match raw_text w st "text.txt" with
    | Some raw => if has_key w then [Single.prompt raw] else []
    | None => []
    end /\
  requests (added st (Dual.generate_learning_update w st).2) =
    match raw_text w st "input.txt" with
    | Some raw =>
      if has_key w then
        Dual.tweet_prompt raw ::
        (if goes_on (generate_content w (Dual.tweet_prompt raw))
         then [Dual.linkedin_prompt raw] else [])
      else []
    | None => []
    end.
Proof. split; [apply single_generate_requests|apply dual_generate_requests]. Qed.

(** X10.  Whatever [generate_learning_update] returns is already within
    the limits: the tweet has at most 280 code points and no run of three
    newlines, the long-form post at most 3000 code points; so the
    [truncate_tweet] that [main] applies next returns the tweet as it is,
    and in the single-platform variant logs no warning. *)
Theorem X10_generated_text_within_limits (w : World) (st : state) :
  (forall t st1,
     Single.generate_learning_update w st = (Return t, st1) ->
     length t <= 280 /\ contains nl3 t = false /\
     Single.truncate_tweet t st1 = (Return t, st1)) /\
  (forall p st1,
     Dual.generate_learning_update w st = (Return p, st1) ->
     length p.1 <= 280 /\ contains nl3 p.1 = false /\
     length p.2 <= 3000 /\ Dual.truncate_tweet p.1 = p.1).
Proof.
  split.
  - intros t st1 H.
    assert (Hl : length t <= 280 /\ contains nl3 t = false).
    { apply single_generate_result in H as [->|[x ->]].
      - split; [cbn; lia|reflexivity].
      - split; [apply length_shape_tweet|apply shape_tweet_no_triple]. }
    destruct Hl as [Hl Hc]. repeat split; try assumption.
    unfold Single.truncate_tweet. destruct t as [|c t]; [reflexivity|].
    cbn [is_empty]. destruct (Nat.leb_spec (length (c :: t)) MAX_TWEET_LENGTH) as [_|Hgt];
      [reflexivity|]. unfold MAX_TWEET_LENGTH in Hgt. lia.
  - intros p st1 H. apply dual_generate_result in H as [H1 H2].
    assert (Hl : length p.1 <= 280 /\ contains nl3 p.1 = false).
    { destruct H1 as [->|[x ->]].
      - split; [cbn; lia|reflexivity].
      - split; [apply length_shape_tweet|apply shape_tweet_no_triple]. }
    destruct Hl as [Hl Hc]. repeat split; try assumption.
    + destruct H2 as [->|[x ->]]; [cbn; lia|apply length_shape_linkedin].
    + unfold Dual.truncate_tweet. now apply truncate_tweet_within.
Qed.

Lemma X10_generated_text_within_limits_witness :
  length (shape_tweet (strip Demo.long_text)) <= 280.
Proof.
  refine (proj1 (proj1 (X10_generated_text_within_limits
            (Demo.world Demo.gemini_key (Demo.answers Demo.long_text) Demo.posts_ok)
            (Demo.start Demo.notes)) (shape_tweet (strip Demo.long_text)) _ _)).
  vm_compute. reflexivity.
Defined.

(** ** The first paraphraser's script *)

Section LegacyScript.
Context (w : World).





Opaque Legacy.prompt.


Transparent Legacy.prompt.

End LegacyScript.



(** ** The output recorder *)

Section Encodable.

Lemma is_space_not_surrogate (c : N) : is_space c = true -> is_surrogate c = false.
Proof.
  unfold is_space, is_surrogate. intros H.
  apply andb_false_iff.
  destruct (N.leb_spec 55296 c) as [Hlo|Hlo]; [|now left]. right.
  destruct (N.leb_spec c 57343) as [Hhi|Hhi]; [|reflexivity]. exfalso.
  repeat (apply orb_prop in H as [H|H]);
    repeat match type of H with
           | (_ && _)%bool = true => apply andb_prop in H as [? ?]
           end;
    repeat match goal with
           | E : (_ <=? _)%N = true |- _ => apply N.leb_le in E
           | E : (_ =? _)%N = true |- _ => apply N.eqb_eq in E
           end; lia.
Qed.

Lemma encodable_app (a b : str) : encodable (a ++ b) = encodable a && encodable b.
Proof. apply forallb_app. Qed.

(** Stripping removes white space only, and no surrogate is white space. *)
Lemma encodable_rstrip (s : str) : encodable (rstrip s) = encodable s.
Proof.
  induction s as [|c s IH]; [reflexivity|].
  cbn [rstrip]. destruct (rstrip s) as [|d r] eqn:E.
  - change (encodable (c :: s)) with (negb (is_surrogate c) && encodable s).
    rewrite <- IH. change (encodable []) with true. rewrite andb_true_r.
    destruct (is_space c) eqn:Hc.
    + now rewrite (is_space_not_surrogate c Hc).
    + unfold encodable. cbn [forallb]. now rewrite andb_true_r.
  - change (encodable (c :: d :: r)) with (negb (is_surrogate c) && encodable (d :: r)).
    now rewrite IH.
Qed.

End Encodable.

Section Recorder.
Context (w : World).

Lemma save_output_failed (tweet linkedin_post : str) (path : string)
    (note : option (list N)) (st : state) (e : exn) :
  append_error w path = Some e ->
  is_Exception e = true ->
  Dual.save_output w tweet linkedin_post path note st =
  (Return tt,
   {| fs := fs st; ticks := S (ticks st);
      trace := trace st ++ [Log ERROR "Failed to write outputs to %s"] |}).
Proof.
  intros H He. unfold Dual.save_output, Dual.append_lines, try_except.
  rewrite bind_run. cbn [Dual.utcnow]. rewrite bind_run, H. cbn [raise].
  now rewrite He.
Qed.

Lemma save_output_twice (t1 l1 t2 l2 : str) (path : string)
    (n1 n2 : option (list N)) (st : state) :
  writes_all w path (Dual.record_lines (utcnow_isoformat w (ticks st)) t1 l1 n1) ->
  writes_all w path (Dual.record_lines (utcnow_isoformat w (S (ticks st))) t2 l2 n2) ->
  fs ((Dual.save_output w t1 l1 path n1 ;;; Dual.save_output w t2 l2 path n2) st).2
    !! path =
  Some (default [] (fs st !! path)
        ++ concat (Dual.record_lines (utcnow_isoformat w (ticks st)) t1 l1 n1)
        ++ concat (Dual.record_lines (utcnow_isoformat w (S (ticks st))) t2 l2 n2)).
Proof.
  intros H1 H2. rewrite bind_run, save_output_ok by exact H1. cbv beta iota zeta.
  rewrite save_output_ok by exact H2. cbv zeta. cbn [snd fs ticks].
  rewrite !lookup_insert_eq. cbn [default id]. now rewrite <- app_assoc.
Qed.

Lemma record_starts_with_header (now tweet linkedin_post : str) (note : option (list N)) :
  exists rest,
    concat (Dual.record_lines now tweet linkedin_post note) =
    lit "===== Generated on " ++ now ++ lit "Z =====" ++ [nl] ++ rest.
Proof.
  unfold Dual.record_lines. rewrite concat_app. cbn [concat].
  rewrite app_nil_r, <- !app_assoc. eauto.
Qed.

(** [save_output] lets no [Exception] out. *)
Lemma save_output_raises (tweet linkedin_post : str) (path : string)
    (note : option (list N)) (st : state) (e : exn) :
  (Dual.save_output w tweet linkedin_post path note st).1 = Raise e ->
  is_Exception e = false.
Proof.
  destruct (Dual.save_output w tweet linkedin_post path note st) as [r st'] eqn:H.
  cbn [fst]. intros ->. unfold Dual.save_output in H.
  apply bind_inv in H as [(now & st1 & _ & H)|(e' & H & _)]; [|discriminate H].
  apply try_except_inv in H.
  destruct H as [(a & _ & Ha)|(e' & st2 & _ & [(h & Hh & Hr)|(Hh & Hr & _)])].
  - discriminate Ha.
  - destruct (is_Exception e'); [|discriminate Hh]. injection Hh as <-.
    apply emit_inv in Hr as [Hr _]. discriminate Hr.
  - injection Hr as ->. now destruct (is_Exception e').
Qed.

(** Whatever happens, what is added to the file is a beginning of the
    text of the lines. *)
Lemma append_lines_files (path : string) (contents : list (list N)) (st : state) :
  fs (Dual.append_lines w path contents st).2 = fs st \/
  exists d, d `prefix_of` concat contents /\
    fs (Dual.append_lines w path contents st).2
    = <[path := default [] (fs st !! path) ++ d]> (fs st).
Proof.
  unfold Dual.append_lines. destruct (append_error w path); [now left|]. right.
  pose proof (writelines_prefix contents) as Hp.
  destruct (Dual.writelines contents) as [text failed]. cbn [fst] in Hp.
  destruct (write_error w path) as [[n e]|].
  - exists (take n text). split; [|reflexivity].
    etransitivity; [|exact Hp]. exists (drop n text). symmetry. apply take_drop.
  - exists text. split; [exact Hp|]. now destruct failed.
Qed.

Lemma save_output_files (tweet linkedin_post : str) (path : string)
    (note : option (list N)) (st : state) :
  fs (Dual.save_output w tweet linkedin_post path note st).2 = fs st \/
  exists d,
    d `prefix_of` concat (Dual.record_lines (utcnow_isoformat w (ticks st))
                            tweet linkedin_post note) /\
    fs (Dual.save_output w tweet linkedin_post path note st).2
    = <[path := default [] (fs st !! path) ++ d]> (fs st).
Proof.
  set (contents := Dual.record_lines (utcnow_isoformat w (ticks st))
                     tweet linkedin_post note).
  set (st1 := {| fs := fs st; ticks := S (ticks st); trace := trace st |}).
  assert (E : fs (Dual.save_output w tweet linkedin_post path note st).2
              = fs (Dual.append_lines w path contents st1).2).
  { unfold Dual.save_output, try_except. rewrite bind_run. cbn [Dual.utcnow].
    cbv beta iota zeta. rewrite bind_run. fold contents. fold st1.
    destruct (Dual.append_lines w path contents st1) as [[a|e] st2];
      [reflexivity|]. now destruct (is_Exception e). }
  rewrite E. exact (append_lines_files path contents st1).
Qed.

(** The record up to the line of the tweet. *)
Lemma record_lines_split (now tweet linkedin_post : str) (note : option (list N)) :
  exists head,
    Dual.record_lines now tweet linkedin_post note =
    head ++ (rstrip tweet ++ [nl; nl])
         :: [lit "--- LINKEDIN POST ---" ++ [nl]; rstrip linkedin_post ++ [nl]; [nl]] /\
    (encodable now = true -> encodable (default [] note) = true ->
     forallb encodable head = true).
Proof.
  exists ([lit "===== Generated on " ++ now ++ lit "Z =====" ++ [nl]]
          ++ match note with
             | Some (c :: n) => [lit "NOTE: " ++ (c :: n) ++ [nl]]
             | _ => []
             end
          ++ [lit "--- X / TWEET ---" ++ [nl]]).
  split.
  - unfold Dual.record_lines. now rewrite <- !app_assoc.
  - intros Hn Hnote. rewrite !forallb_app. cbn [forallb].
    rewrite !encodable_app, Hn.
    destruct note as [[|c n]|]; cbn [forallb]; try reflexivity.
    change (encodable (default [] (Some (c :: n)))) with (encodable (c :: n)) in Hnote.
    rewrite !encodable_app, Hnote. reflexivity.
Qed.

(** A tweet that cannot be encoded: the lines before it are written, and
    the failure is logged. *)
Lemma save_output_unencodable (tweet linkedin_post : str) (path : string)
    (note : option (list N)) (st : state) :
  append_error w path = None -> write_error w path = None ->
  encodable (utcnow_isoformat w (ticks st)) = true ->
  encodable (default [] note) = true ->
  encodable tweet = false ->
  exists head,
    Dual.record_lines (utcnow_isoformat w (ticks st)) tweet linkedin_post note =
    head ++ (rstrip tweet ++ [nl; nl])
         :: [lit "--- LINKEDIN POST ---" ++ [nl]; rstrip linkedin_post ++ [nl]; [nl]] /\
    Dual.save_output w tweet linkedin_post path note st =
    (Return tt,
     {| fs := <[path := default [] (fs st !! path) ++ concat head]> (fs st);
        ticks := S (ticks st);
        trace := trace st ++ [FileAppend path (concat head);
                              Log ERROR "Failed to write outputs to %s"] |}).
Proof.
  intros Ha Hw Hn Hnote Ht.
  destruct (record_lines_split (utcnow_isoformat w (ticks st)) tweet linkedin_post note)
    as (head & Hsplit & Hhead).
  exists head. split; [exact Hsplit|].
  assert (Hbad : encodable (rstrip tweet ++ [nl; nl]) = false).
  { now rewrite encodable_app, encodable_rstrip, Ht. }
  destruct (writelines_stop head _
              [lit "--- LINKEDIN POST ---" ++ [nl]; rstrip linkedin_post ++ [nl]; [nl]]
              (Hhead Hn Hnote) Hbad) as (e & He & HE).
  unfold Dual.save_output, Dual.append_lines, try_except.
  rewrite bind_run. cbn [Dual.utcnow]. cbv beta iota zeta.
  rewrite bind_run, Ha, Hsplit, He, Hw, bind_run, write_to_run.
  cbn [raise]. rewrite HE.
  unfold logging, emit. cbn [fs ticks trace]. now rewrite <- app_assoc.
Qed.

(** A write that fails: the beginning of the record is in the file, and
    the failure is logged. *)
Lemma save_output_write_error (tweet linkedin_post : str) (path : string)
    (note : option (list N)) (st : state) (n : nat) (e : exn) :
  append_error w path = None -> write_error w path = Some (n, e) ->
  is_Exception e = true ->
  forallb encodable (Dual.record_lines (utcnow_isoformat w (ticks st))
                       tweet linkedin_post note) = true ->
  Dual.save_output w tweet linkedin_post path note st =
  let text := take n (concat (Dual.record_lines (utcnow_isoformat w (ticks st))
                                tweet linkedin_post note)) in
  (Return tt,
   {| fs := <[path := default [] (fs st !! path) ++ text]> (fs st);
      ticks := S (ticks st);
      trace := trace st ++ [FileAppend path text;
                            Log ERROR "Failed to write outputs to %s"] |}).
Proof.
  intros Ha Hw HE He.
  unfold Dual.save_output, Dual.append_lines, try_except.
  rewrite bind_run. cbn [Dual.utcnow]. cbv beta iota zeta.
  rewrite bind_run, Ha, (writelines_all _ He), Hw, bind_run, write_to_run.
  cbn [raise]. rewrite HE.
  unfold logging, emit. cbn [fs ticks trace]. now rewrite <- app_assoc.
Qed.

End Recorder.

(** X12.  [save_output] is best effort and append-only.  It lets no
    [Exception] out, and whatever happens the files are as they were, or
    the file at [path] holds what it held followed by a beginning of the
    record.  When all of the record can be written (the file opens, every
    line can be encoded, no write fails), the file holds what it held
    followed by the record, and a second call adds its record after the
    first, stamped with the next reading of the clock.  When opening the
    file raises an [Exception], [save_output] returns with every file as it
    was and one error record in the log.  When the tweet holds a code point
    that cannot be encoded, it returns with only the lines of the record
    before the tweet's added to the file, and logs the error; when a write
    fails with an [Exception], with the part of the record that reached the
    file, and logs the error.  A record begins with the line
    [===== Generated on <time>Z =====]. *)
Theorem X12_save_output_appends (w : World) (st : state) (path : string)
    (t1 l1 t2 l2 : str) (n1 n2 : option (list N)) :
  let record := Dual.record_lines (utcnow_isoformat w (ticks st)) t1 l1 n1 in
  let old := default [] (fs st !! path) in
  (forall e, (Dual.save_output w t1 l1 path n1 st).1 = Raise e ->
     is_Exception e = false) /\
  (fs (Dual.save_output w t1 l1 path n1 st).2 = fs st \/
   exists d, d `prefix_of` concat record /\
     fs (Dual.save_output w t1 l1 path n1 st).2 = <[path := old ++ d]> (fs st)) /\
  (writes_all w path record ->
   (Dual.save_output w t1 l1 path n1 st).1 = Return tt /\
   fs (Dual.save_output w t1 l1 path n1 st).2 !! path = Some (old ++ concat record) /\
   (writes_all w path (Dual.record_lines (utcnow_isoformat w (S (ticks st))) t2 l2 n2) ->
    fs ((Dual.save_output w t1 l1 path n1 ;;; Dual.save_output w t2 l2 path n2) st).2
      !! path =
    Some (old ++ concat record
          ++ concat (Dual.record_lines (utcnow_isoformat w (S (ticks st))) t2 l2 n2)))) /\
  (forall e, append_error w path = Some e -> is_Exception e = true ->
   Dual.save_output w t1 l1 path n1 st =
   (Return tt,
    {| fs := fs st; ticks := S (ticks st);
       trace := trace st ++ [Log ERROR "Failed to write outputs to %s"] |})) /\
  (append_error w path = None -> write_error w path = None ->
   encodable (utcnow_isoformat w (ticks st)) = true ->
   encodable (default [] n1) = true ->
   encodable t1 = false ->
   exists head,
     record = head ++ (rstrip t1 ++ [nl; nl])
                   :: [lit "--- LINKEDIN POST ---" ++ [nl]; rstrip l1 ++ [nl]; [nl]] /\
     Dual.save_output w t1 l1 path n1 st =
     (Return tt,
      {| fs := <[path := old ++ concat head]> (fs st);
         ticks := S (ticks st);
         trace := trace st ++ [FileAppend path (concat head);
                               Log ERROR "Failed to write outputs to %s"] |})) /\
  (forall n e,
   append_error w path = None -> write_error w path = Some (n, e) ->
   is_Exception e = true -> forallb encodable record = true ->
   Dual.save_output w t1 l1 path n1 st =
   (Return tt,
    {| fs := <[path := old ++ take n (concat record)]> (fs st);
       ticks := S (ticks st);
       trace := trace st ++ [FileAppend path (take n (concat record));
                             Log ERROR "Failed to write outputs to %s"] |})) /\
  (exists rest,
     concat record =
     lit "===== Generated on " ++ utcnow_isoformat w (ticks st)
       ++ lit "Z =====" ++ [nl] ++ rest).
Proof.
  intros record old. split; [apply save_output_raises|].
  split; [apply save_output_files|]. split; [|split; [|split; [|split]]].
  - intros H. rewrite (save_output_ok w t1 l1 path n1 st H). cbv zeta. cbn [fst snd fs].
    split; [reflexivity|]. split; [now rewrite lookup_insert_eq|].
    intros H2. now apply save_output_twice.
  - intros e H He. exact (save_output_failed w t1 l1 path n1 st e H He).
  - intros Ha Hw Hn Hnote Ht.
    exact (save_output_unencodable w t1 l1 path n1 st Ha Hw Hn Hnote Ht).
  - intros n e Ha Hw HE He.
    exact (save_output_write_error w t1 l1 path n1 st n e Ha Hw HE He).
  - apply record_starts_with_header.
Qed.

Lemma X12_save_output_appends_witness :
  (Dual.save_output (Demo.world [] (Demo.answers []) Demo.posts_ok)
     (lit "tweet") (lit "post") "output.txt" None (Demo.start Demo.notes)).1
  = Return tt /\
  exists head,
    Dual.save_output (Demo.world [] (Demo.answers []) Demo.posts_ok)
      Demo.unpaired_text (lit "post") "output.txt" None (Demo.start Demo.notes) =
    (Return tt,
     {| fs := <["output.txt" := [] ++ concat head]> (fs (Demo.start Demo.notes));
        ticks := 1;
        trace := [FileAppend "output.txt" (concat head);
                  Log ERROR "Failed to write outputs to %s"] |}).
Proof.
  split.
  - refine (proj1 (proj1 (proj2 (proj2 (X12_save_output_appends
              (Demo.world [] (Demo.answers []) Demo.posts_ok) (Demo.start Demo.notes)
              "output.txt" (lit "tweet") (lit "post") [] [] None None))) _)).
    vm_compute. repeat split.
  - destruct (proj1 (proj2 (proj2 (proj2 (proj2 (X12_save_output_appends
              (Demo.world [] (Demo.answers []) Demo.posts_ok) (Demo.start Demo.notes)
              "output.txt" Demo.unpaired_text (lit "post") [] [] None None)))))
              eq_refl eq_refl eq_refl eq_refl eq_refl) as (head & _ & H).
    exists head. exact H.
Defined.

(** ** Exit codes *)

(** X13.  The single-platform [main] returns no other value than 0, 2, 3,
    4, 5 and 6, the two-platform [main] no other than 0, 2, 3, 4, 5, 6 and
    7. *)
Theorem X13_exit_codes_are_the_listed_ones (w : World) (st : state) :
  (forall c st', Single.main w st = (Return c, st') ->
     In c [0; 2; 3; 4; 5; 6]%Z) /\
  (forall c st', Dual.main w st = (Return c, st') ->
     In c [0; 2; 3; 4; 5; 6; 7]%Z).
Proof.
  split; intros c st' H.
  - apply single_codes in H. cbn [In]. intuition auto.
  - apply dual_codes in H. cbn [In]. intuition auto.
Qed.

Lemma X13_exit_codes_are_the_listed_ones_witness :
  In 6%Z [0; 2; 3; 4; 5; 6; 7]%Z.
Proof.
  refine (proj2 (X13_exit_codes_are_the_listed_ones
            (Demo.world (Demo.x_keys ++ Demo.gemini_key) (Demo.answers Demo.short_text)
               (Demo.posts_fail (TweepyException "403 Forbidden")))
            (Demo.start Demo.notes)) 6%Z _ _).
  vm_compute. reflexivity.
Defined.

(** ** What the two [main]s do to the files *)

Section Files.
Context (w : World) (path : string).

#[local] Instance appends_to_preorder : PreOrder (appends_to path).
Proof.
  split.
  - intros st. split; [reflexivity|]. intros c H. exists []. now rewrite app_nil_r.
  - intros a b c [Ho1 Hp1] [Ho2 Hp2]. split.
    + intros p Hp. now rewrite Ho2, Ho1.
    + intros x Hx. destruct (Hp1 x Hx) as [d1 Hd1]. destruct (Hp2 _ Hd1) as [d2 Hd2].
      exists (d1 ++ d2). now rewrite Hd2, app_assoc.
Qed.

Lemma same_files_appends (st st' : state) : fs st' = fs st -> appends_to path st st'.
Proof.
  intros E. split; [now rewrite E|]. intros c H. exists []. now rewrite E, app_nil_r.
Qed.

Lemma grows_appends {A} (P : event -> Prop) (m : M A) :
  respects (grows P) m -> respects (appends_to path) m.
Proof. intros H st. apply same_files_appends, H. Qed.

Lemma emit_appends (e : event) : respects (appends_to path) (emit e).
Proof. intros st. now apply same_files_appends. Qed.

Lemma save_output_appends (tweet linkedin_post : str) (note : option (list N)) :
  respects (appends_to path) (Dual.save_output w tweet linkedin_post path note).
Proof.
  unfold Dual.save_output.
  apply respects_bind; [tc_solve|intros st; now apply same_files_appends|intros now].
  apply respects_try_except; [tc_solve| |].
  - apply respects_bind; [tc_solve| |intros ?; apply emit_appends].
    unfold Dual.append_lines. destruct (append_error w path);
      [apply respects_raise; tc_solve|].
    destruct (Dual.writelines _) as [text failed].
    assert (Hw : forall t, respects (appends_to path) (Dual.write_to path t)).
    { intros t st. split; cbn beta iota delta [snd fs Dual.write_to].
      - intros p Hp. now rewrite lookup_insert_ne.
      - intros c Hc. rewrite lookup_insert_eq, Hc. cbn [default]. eauto. }
    destruct (write_error w path) as [[n e]|].
    + apply respects_bind; [tc_solve|apply Hw|intros ?]. apply respects_raise; tc_solve.
    + apply respects_bind; [tc_solve|apply Hw|intros ?].
      destruct failed; [apply respects_raise|apply respects_ret]; tc_solve.
  - intros e h H. respects_handler H. apply emit_appends.
Qed.

End Files.

#[local] Existing Instance appends_to_preorder.

Lemma grows_weaken {A} (P Q : event -> Prop) (m : M A) :
  (forall e, P e -> Q e) -> respects (grows P) m -> respects (grows Q) m.
Proof.
  intros HPQ H st. destruct (H st) as (Hf & Ht & new & E & F).
  repeat split; try assumption. exists new. split; [exact E|].
  eapply Forall_impl; eauto.
Qed.

Ltac files_step :=
  lazymatch goal with
  | |- respects _ (Dual.save_output _ _ _ _ _) => apply save_output_appends
  | |- respects _ (tweepy_Client _) =>
    apply (grows_appends _ (fun _ => True)), tweepy_Client_grows
  | |- respects _ (client_create_tweet _ _) =>
    unfold client_create_tweet
  | |- respects _ (Dual.input _ _) => unfold Dual.input
  | |- respects _ (bind _ _) => apply respects_bind; [tc_solve| |intros ?]
  | |- respects _ (ret _) => apply respects_ret; tc_solve
  | |- respects _ (raise _) => apply respects_raise; tc_solve
  | |- respects _ (try_except _ _) =>
    apply respects_try_except;
    [tc_solve| |let e := fresh "e" in let h := fresh "h" in let H := fresh "H" in
      intros e h H; respects_handler H]
  | |- respects _ (logging _ _) => apply emit_appends
  | |- respects _ (print _) => apply emit_appends
  | |- respects _ (emit _) => apply emit_appends
  | |- respects _ (match ?x with _ => _ end) => destruct x
  end.

Section MainFiles.
Context (w : World).

Lemma dual_main_appends : respects (appends_to (arg_output w)) (Dual.main w).
Proof.
  unfold Dual.main. cbv zeta.
  apply respects_bind; [tc_solve| |intros p].
  - apply (grows_appends _ not_a_post), dual_generate_grows.
  - repeat files_step.
Qed.

Lemma single_main_grows : respects (grows (fun _ => True)) (Single.main w).
Proof.
  unfold Single.main. cbv zeta.
  apply respects_bind; [tc_solve| |intros [code|client]]; [|respects_auto; fail|].
  - apply respects_try_except; [tc_solve| |intros e h H; respects_handler H; respects_auto].
    apply respects_bind; [tc_solve|apply tweepy_Client_grows|intros ?]. respects_auto.
  - apply respects_bind; [tc_solve| |intros t].
    { apply (grows_weaken not_a_post); [easy|apply single_generate_grows]. }
    apply respects_bind; [tc_solve| |intros tweet].
    { apply single_truncate_grows. easy. }
    destruct (is_empty tweet); [respects_auto|].
    destruct (dry_run_flag w); [respects_auto|].
    apply respects_bind; [tc_solve| |intros [code|id]; respects_auto].
    apply respects_try_except; [tc_solve| |intros e h H; respects_handler H; respects_auto].
    unfold client_create_tweet. respects_auto.
Qed.

End MainFiles.

(** X14.  A run of [main] never removes or shortens a file.  The
    two-platform [main] leaves every file but the output file as it was,
    and what the output file held is kept as the beginning of what it holds
    afterwards; the single-platform [main] leaves every file as it was. *)
Theorem X14_files_are_only_appended_to (w : World) (st : state) :
  appends_to (arg_output w) st (Dual.main w st).2 /\
  fs (Single.main w st).2 = fs st.
Proof. split; [apply dual_main_appends|apply single_main_grows]. Qed.

(** ** When a tweet is posted *)

Section Gate.
Context (w : World).

Lemma respects_bind_returns {A B} (R : state -> state -> Prop) `{!PreOrder R}
    (Q : A -> Prop) (m : M A) (k : A -> M B) :
  returns Q m -> respects R m -> (forall a, Q a -> respects R (k a)) ->
  respects R (bind m k).
Proof.
  intros HQ Hm Hk st. unfold bind. specialize (Hm st).
  destruct (m st) as [[a|e] st1] eqn:E; cbn [snd] in Hm |- *.
  - etransitivity; [exact Hm|]. exact (Hk a (HQ st a st1 E) st1).
  - exact Hm.
Qed.

Lemma posts_app (a b : list event) : posts (a ++ b) = posts a ++ posts b.
Proof. unfold posts. apply flat_map_app. Qed.

Lemma posts_none (evs : list event) : Forall not_a_post evs -> posts evs = [].
Proof.
  induction 1 as [|e evs He _ IH]; [reflexivity|].
  cbn [posts flat_map]. fold (posts evs). rewrite IH. now destruct e.
Qed.

Lemma extends_posts_none (st st' : state) :
  extends not_a_post st st' -> posts (added st st') = [].
Proof. intros [new [E F]]. rewrite (added_app st st' new E). now apply posts_none. Qed.

(** The value of [confirmed] in [main]. *)
Lemma confirmation_returns :
  returns (fun b => b = confirmed w)
    (if arg_yes w then ret true
     else
       resp <- try_except
                 (line <- Dual.input w (lit "Post the tweet now? (y/N): ") ;;
                  ret (lower (strip line)))
                 (fun e => if is_Exception e
                           then Some (logging WARNING
                                        "No TTY available; refusing to post without --yes flag" ;;;
                                      ret (lit "n"))
                           else None) ;;
       ret (PyStr.eqb resp (lit "y"))).
Proof.
  intros st b st' H. unfold confirmed. destruct (arg_yes w); cbn [orb].
  - now apply ret_inv in H as [[= ->] _].
  - unfold Dual.input in H. inv_all; try reflexivity.
    all: repeat match goal with
                | H : stdin w = _ |- _ => rewrite H
                end; reflexivity.
Qed.

Ltac gate_step H :=
  lazymatch goal with
  | |- respects _ (bind (if arg_yes _ then _ else _) _) =>
    apply (respects_bind_returns _ (fun b => b = confirmed w));
    [apply confirmation_returns| |intros ? ->]
  | |- respects _ (if dry_run_flag w then _ else _) =>
    destruct (dry_run_flag w) eqn:?
  | |- respects _ (if negb (confirmed w) then _ else _) =>
    destruct (confirmed w) eqn:?; cbn [negb]
  | |- respects _ (client_create_tweet _ _) =>
    exfalso; destruct H; congruence
  | |- _ => main_step
  end.

Lemma dual_main_gate :
  dry_run_flag w = true \/ confirmed w = false ->
  respects (extends not_a_post) (Dual.main w).
Proof.
  intros H. unfold Dual.main. cbv zeta.
  apply respects_bind; [tc_solve| |intros p].
  - apply grows_extends, dual_generate_grows.
  - repeat gate_step H.
Qed.

Lemma single_main_gate :
  dry_run_flag w = true -> respects (extends not_a_post) (Single.main w).
Proof.
  intros H. unfold Single.main. cbv zeta. rewrite H.
  apply respects_bind; [tc_solve| |intros [code|client]]; [|respects_auto; fail|].
  - apply respects_try_except; [tc_solve| |intros e h He; respects_handler He; respects_auto].
    apply respects_bind; [tc_solve|apply grows_extends, tweepy_Client_grows|intros ?].
    respects_auto.
  - apply respects_bind; [tc_solve|apply grows_extends, single_generate_grows|intros t].
    apply respects_bind; [tc_solve| |intros tweet].
    { apply grows_extends, single_truncate_grows. easy. }
    destruct (is_empty tweet); respects_auto.
Qed.

End Gate.

(** X15.  A tweet is posted only when the run is not a dry run and, in the
    two-platform variant, posting was confirmed by [--yes] or by the answer
    [y]: in a dry run, and in the two-platform variant after any other
    answer or a failing prompt, [main] makes no posting call, whatever else
    happens. *)
Theorem X15_no_post_without_confirmation (w : World) (st : state) :
  (dry_run_flag w = true \/ confirmed w = false ->
   posts (added st (Dual.main w st).2) = []) /\
  (dry_run_flag w = true ->
   posts (added st (Single.main w st).2) = []).
Proof.
  split; intros H.
  - apply extends_posts_none, (dual_main_gate w H).
  - apply extends_posts_none, (single_main_gate w H).
Qed.

Lemma X15_no_post_without_confirmation_witness :
  posts (added (Demo.start Demo.notes)
           (Dual.main
              {| environ := Demo.env_of (Demo.x_keys ++ Demo.gemini_key);
                 arg_yes := false; arg_output := "output.txt";
                 read_error := fun _ => None; append_error := fun _ => None;
        write_error := fun _ => None;
                 generate_content := Demo.answers Demo.short_text;
                 client_init := None; create_tweet := Demo.posts_ok;
                 stdin := InputLine (lit "yes");
                 utcnow_isoformat := fun _ => [] |}
              (Demo.start Demo.notes)).2) = [].
Proof.
  apply (proj1 (X15_no_post_without_confirmation _ _)).
  right. vm_compute. reflexivity.
Defined.

Section Posted.
Context (w : World).

Lemma single_main_posted (st st1 : state) (t : str) (id : option (list N)) :
  (tweepy_Client w st).1 = Return tt ->
  Single.generate_learning_update w st = (Return t, st1) ->
  t <> [] ->
  dry_run_flag w = false ->
  create_tweet w t = PostResponse id ->
  (Single.main w st).1 = Return 0%Z /\
  posts (added st (Single.main w st).2) = [t].
Proof.
  intros Hc Hg Ht Hd Hp.
  assert (Htr : Shaper.truncate_tweet t = t).
  { apply truncate_tweet_within.
    apply single_generate_result in Hg as [->|[x ->]]; [easy|apply length_shape_tweet]. }
  apply is_empty_cons in Ht.
  destruct (single_main_ready w st st1 t Hc Hg) as (st2 & (_ & _ & new & E & F) & ->).
  cbv zeta. rewrite Htr, Ht, Hd, bind_run. unfold try_except. rewrite bind_run.
  unfold client_create_tweet. rewrite bind_run. cbn [emit]. rewrite Hp.
  cbn [ret bind logging emit fst snd].
  destruct id as [[|c i]|]; cbn [ret bind logging emit fst snd trace]; (split; [reflexivity|]).
  all: erewrite added_app
         by (cbn [trace]; rewrite E, <- ?app_assoc; reflexivity).
  all: rewrite posts_app, (posts_none new F); reflexivity.
Qed.

End Posted.

(** X16.  When the posting client is there, a tweet was generated, the
    run is not a dry run and the posting call returns, the single-platform
    [main] returns 0 and has made exactly one posting call, with the
    generated tweet as it was returned, whether or not the response
    carries an id. *)
Theorem X16_single_main_posts_once (w : World) (st st1 : state) (t : str)
    (id : option (list N)) :
  (tweepy_Client w st).1 = Return tt ->
  Single.generate_learning_update w st = (Return t, st1) ->
  t <> [] ->
  dry_run_flag w = false ->
  create_tweet w t = PostResponse id ->
  (Single.main w st).1 = Return 0%Z /\
  posts (added st (Single.main w st).2) = [t].
Proof. apply single_main_posted. Qed.

Lemma X16_single_main_posts_once_witness :
  (Single.main
     (Demo.world (Demo.x_keys ++ Demo.gemini_key) (Demo.answers Demo.short_text)
        Demo.posts_ok)
     (Demo.start Demo.notes)).1 = Return 0%Z /\
  posts (added (Demo.start Demo.notes)
           (Single.main
              (Demo.world (Demo.x_keys ++ Demo.gemini_key)
                 (Demo.answers Demo.short_text) Demo.posts_ok)
              (Demo.start Demo.notes)).2)
  = [lit "Day 5" ++ [nl; nl] ++ lit "recursion #100DaysOfCode"].
Proof.
  eapply (X16_single_main_posts_once
            (Demo.world (Demo.x_keys ++ Demo.gemini_key)
               (Demo.answers Demo.short_text) Demo.posts_ok)
            (Demo.start Demo.notes) _
            (lit "Day 5" ++ [nl; nl] ++ lit "recursion #100DaysOfCode")
            (Some (lit "1750"))).
  - vm_compute. reflexivity.
  - vm_compute. reflexivity.
  - vm_compute. discriminate.
  - vm_compute. reflexivity.
  - vm_compute. reflexivity.
Defined.
